(** * Routing and validation core of the report-writer example

    Shallow embedding of [examples/advance/report_writer_new/main.py]:
    the message data model, the two structured output schemas, the
    speaker-selection function [selector_func], the team wiring
    ([team_insight], [team_blueprint], [final_team]) and the console
    loop [assistant_run]. *)

From stdpp Require Import gmap strings list.

Open Scope string_scope.
Open Scope list_scope.

(** ** Data model *)

(** [Literal["open", "single_choice", "multiple_choice"]] *)
Inductive question_type := open | single_choice | multiple_choice.

(** [WordInsightAnalysis.ExistingInformation] *)
Record ExistingInformation := {
  document_type : string;
  target_audience : string;
  writing_purpose : string;
  style_requirement : string;
  key_content : list string;
}.

(** [WordInsightAnalysis.SupplementaryQuestion] *)
Record SupplementaryQuestion := {
  question : string;
  options : list string;
  reason : string;
  type : question_type;
}.

Record WordInsightAnalysis := {
  existing_information : ExistingInformation;
  supplementary_questions : list SupplementaryQuestion;
}.

(** [WordBlueprintStructure.Section]; [description] is [str | None]. *)
Record BlueprintSection := {
  subheading : string;
  points : list string;
  description : option string;
}.

Record WordBlueprintStructure := {
  title : string;
  sections : list BlueprintSection;
  estimated_length : string;
}.

(** Content of a message: free text ([TextMessage]) or one of the two
    registered [StructuredMessage] types. *)
Inductive payload :=
  | Text (s : string)
  | Insight (a : WordInsightAnalysis)
  | Blueprint (b : WordBlueprintStructure).

(** A [BaseAgentEvent | BaseChatMessage]: every such message carries a
    [source : str] and a [metadata : Dict[str, str]]. *)
Record message := {
  source : string;
  content : payload;
  metadata : gmap string string;
}.

(** ** Python results *)

(** The exceptions that occur: indexing an empty sequence, a name outside
    the roster, a failed participant run, and Ctrl-C. *)
Inductive exn := IndexError | ValueError | RuntimeError | KeyboardInterrupt.

Inductive result (A : Type) :=
  | Return (a : A)
  | Raise (e : exn).
Arguments Return {A} a.
Arguments Raise {A} e.

Definition bind {A B} (r : result A) (k : A → result B) : result B :=
  match r with
  | Return a => k a
  | Raise e => Raise e
  end.

Notation "x ←' r ; k" := (bind r (λ x, k))
  (at level 20, r at level 100, k at level 200, only parsing).

(** Truthiness of a [str]: only the empty string is falsy. *)
Definition truthy (s : string) : bool :=
  match s with
  | EmptyString => false
  | String _ _ => true
  end.

(** [xs[-1]] on a Python sequence. *)
Definition index_last {A} (xs : list A) : result A :=
  match last xs with
  | Some x => Return x
  | None => Raise IndexError
  end.

(** ** The Router: [selector_func] *)

(** The loop that fills the local set [agent_names]:
<<
    agent_names = set()
    for msg in messages:
        if hasattr(msg, "source") and msg.source:
            agent_names.add(msg.source)
>>
    Every message type has the [source] field, so [hasattr] holds. *)
Definition agent_names (messages : list message) : gset string :=
  foldl (λ names msg,
           if truthy (source msg) then names ∪ {[source msg]} else names)
        ∅ messages.

Definition selector_func (messages : list message) : result (option string) :=
  let agent_names := agent_names messages in
  if bool_decide ("word_insight_json_agent" ∉ agent_names) then
    Return (Some "team_insight")
  else if bool_decide ("word_insight_json_agent" ∈ agent_names)
          && bool_decide ("word_blueprint_json_agent" ∉ agent_names) then
    Return (Some "team_blueprint")
  else if bool_decide ("word_insight_json_agent" ∈ agent_names)
          && bool_decide ("word_blueprint_json_agent" ∈ agent_names)
          && bool_decide ("writer_agent" ∉ agent_names) then
    Return (Some "writer_agent")
  else
    msg ←' index_last messages;
    Return (metadata msg !! "select_agent").

(** [TextMessage(content=..., source=..., metadata=...)] *)
Definition TextMessage (content source : string)
    (metadata : gmap string string) : message :=
  {| source := source; content := Text content; metadata := metadata |}.

(** "[who] has produced a turn of the log". *)
Definition has_spoken (who : string) (messages : list message) : Prop :=
  who ∈ source <$> messages.

(** ** Agents, teams and the session *)

Inductive schema := WordInsightAnalysis_schema | WordBlueprintStructure_schema.

(** [AssistantAgent(name=..., output_content_type=..., model_client_stream=...)];
    the prompt texts are configuration and are left out. *)
Record AssistantAgent := {
  name : string;
  output_content_type : option schema;
  model_client_stream : bool;
}.

Definition word_insight_json_agent : AssistantAgent :=
  {| name := "word_insight_json_agent";
     output_content_type := Some WordInsightAnalysis_schema;
     model_client_stream := false |}.

Definition word_insight_agent : AssistantAgent :=
  {| name := "word_insight_agent";
     output_content_type := None;
     model_client_stream := false |}.

Definition word_blueprint_json_agent : AssistantAgent :=
  {| name := "word_blueprint_json_agent";
     output_content_type := Some WordBlueprintStructure_schema;
     model_client_stream := false |}.

Definition word_blueprint_agent : AssistantAgent :=
  {| name := "word_blueprint_agent";
     output_content_type := None;
     model_client_stream := false |}.

Definition writer_agent : AssistantAgent :=
  {| name := "writer_agent";
     output_content_type := None;
     model_client_stream := true |}.

Definition refiner_agent : AssistantAgent :=
  {| name := "refiner_agent";
     output_content_type := None;
     model_client_stream := true |}.

Definition explainer_agent : AssistantAgent :=
  {| name := "explainer_agent";
     output_content_type := None;
     model_client_stream := true |}.

(** [RoundRobinGroupChat(participants, name=..., termination_condition=
    SourceMatchTermination(sources=...))] *)
Record RoundRobinGroupChat := {
  rr_participants : list AssistantAgent;
  rr_name : string;
  rr_sources : list string;
}.

Definition team_insight : RoundRobinGroupChat :=
  {| rr_participants := [word_insight_agent; word_insight_json_agent];
     rr_name := "team_insight";
     rr_sources := ["word_insight_json_agent"] |}.

Definition team_blueprint : RoundRobinGroupChat :=
  {| rr_participants := [word_blueprint_agent; word_blueprint_json_agent];
     rr_name := "team_blueprint";
     rr_sources := ["word_blueprint_json_agent"] |}.

(** A participant of the outer team: a validating pair or a single agent. *)
Inductive participant :=
  | Team (t : RoundRobinGroupChat)
  | Agent (a : AssistantAgent).

Definition participant_name (p : participant) : string :=
  match p with
  | Team t => rr_name t
  | Agent a => name a
  end.

(** [SelectorGroupChat(participants, selector_func=..., termination_condition=
    SourceMatchTermination(sources=...))] *)
Record SelectorGroupChat := {
  sg_participants : list participant;
  sg_selector_func : list message → result (option string);
  sg_sources : list string;
}.

Definition final_team : SelectorGroupChat :=
  {| sg_participants :=
       [Team team_insight; Team team_blueprint;
        Agent writer_agent; Agent refiner_agent; Agent explainer_agent];
     sg_selector_func := selector_func;
     sg_sources :=
       ["word_insight_json_agent"; "word_blueprint_json_agent";
        "writer_agent"; "refiner_agent"; "explainer_agent"] |}.

(** The task message built by [assistant_run]: [select_input] stands for
    [select_input.strip()].
<<
    agent_map = {"1": "refiner_agent", "2": "explainer_agent"}
    select_agent = agent_map.get(select_input.strip(), select_input.strip())
    metadata = {"select_agent": select_agent}
    TextMessage(content=task + "/no_think", source="user", metadata=metadata)
>> *)
Definition agent_map : gmap string string :=
  {[ "1" := "refiner_agent"; "2" := "explainer_agent" ]}.

Definition task_message (task select_input : string) : message :=
  let select_agent := default select_input (agent_map !! select_input) in
  TextMessage (task +:+ "/no_think") "user" {[ "select_agent" := select_agent ]}.

(** Modelled from the spec: the termination predicate. The class
    [SourceMatchTermination] is imported from [autogen_agentchat] and is not
    part of the repository; the spec gives it as "producer identity ==
    repair agent's identity" for a pair and as an "identity-set match
    against a configured target set" for the session. It is evaluated on
    the turns a participant has just appended. *)
Definition SourceMatchTermination (sources : list string)
    (delta : list message) : bool :=
  existsb (λ msg, bool_decide (source msg ∈ sources)) delta.

(** Modelled from the spec: what one call of the model-inference
    collaborator gives (the [model_client] of the source, imported from
    [config.model_config]): it "returns a payload (free text or a value
    conforming to the requested schema) or fails with a
    transient-inference-error"; [Cancelled] stands for a Ctrl-C that
    arrives while the call is in flight ("an external cancellation signal
    must abort the in-flight participant call"). *)
Inductive inference :=
  | Answered (answer : payload)
  | InferenceError
  | Cancelled.

(** Whether an answer is a value of the agent's [output_content_type]. An
    agent without one speaks free-form and its answer is taken as it is. *)
Definition conforms (output : option schema) (answer : payload) : bool :=
  match output, answer with
  | None, _ => true
  | Some WordInsightAnalysis_schema, Insight _ => true
  | Some WordBlueprintStructure_schema, Blueprint _ => true
  | Some _, _ => false
  end.

(** Modelled from the spec: the state a [ConversationSession] owns (kept
    inside the imported team classes): the append-only turn log and, for
    each round-robin team, the index of the participant that speaks next. *)
Record session := {
  thread : list message;
  next_speaker : gmap string nat;
}.

Definition next_speaker_index (st : session) (team : string) : nat :=
  default 0 (next_speaker st !! team).

(** Modelled from the spec: how a run of the session ends: termination
    fired, "undecided" (no rule matches and no override), or a failed
    step: a configuration error ([ValueError]), a failed participant run
    ([RuntimeError]) or a cancelled one ([KeyboardInterrupt]). *)
Inductive stop_reason :=
  | Terminated
  | Undecided
  | Failed (e : exn).

Section teams.
(** The model-inference collaborator, by agent identity and context. *)
Variable model_client : string → list message → inference.
(** The policy the driver supplies when the Router is undecided;
    [None] pauses the session for an external decision. *)
Variable fallback : list message → option string.

(** Modelled from the spec: one dispatch to an agent. [AssistantAgent] is
    imported from [autogen_agentchat]; per the spec a participant
    receives the full accumulated context and the turn it produces is
    tagged with its own identity. An answer that is not a value of the
    agent's [output_content_type] is a malformed response: like a failed
    inference it makes the dispatch fail, and no turn is produced. *)
Definition on_messages (agent : AssistantAgent) (context : list message)
    : result message :=
  match model_client (name agent) context with
  | Answered answer =>
      if conforms (output_content_type agent) answer
      then Return {| source := name agent; content := answer; metadata := ∅ |}
      else Raise RuntimeError
  | InferenceError => Raise RuntimeError
  | Cancelled => Raise KeyboardInterrupt
  end.

(** Modelled from the spec: the sub-run of a validating pair (the run loop
    of the imported [RoundRobinGroupChat]): participants speak in the
    listed order, cyclically; each speaker's turn is appended and the
    termination predicate is evaluated on it; the sub-run ends as soon as
    it fires. A failed dispatch ends the sub-run as a failed participant
    run. Returns the index of the next speaker and the turns produced, or
    the failure; [None] when [fuel] dispatches did not end the sub-run. *)
Fixpoint round_robin_run (fuel : nat) (team : RoundRobinGroupChat)
    (index : nat) (context produced : list message)
    : option (result (nat * list message)) :=
  match fuel with
  | 0 => None
  | S fuel =>
      match rr_participants team !! index with
      | None => None
      | Some speaker =>
          match on_messages speaker (context ++ produced) with
          | Raise e => Some (Raise e)
          | Return turn =>
              let index' := (index + 1) `mod` length (rr_participants team) in
              if SourceMatchTermination (rr_sources team) [turn]
              then Some (Return (index', produced ++ [turn]))
              else round_robin_run fuel team index' context (produced ++ [turn])
          end
      end
  end.

(** Modelled from the spec: "resolve to a runnable participant (agent or
    ValidatingPair), run it, append resulting turn(s)"; the dispatch of the
    imported [SelectorGroupChat]. A failed participant run appends no turn
    and leaves the session as it was. *)
Definition run_participant (fuel : nat) (p : participant) (st : session)
    : option (result (session * list message)) :=
  match p with
  | Agent a =>
      match on_messages a (thread st) with
      | Raise e => Some (Raise e)
      | Return turn =>
          Some (Return ({| thread := thread st ++ [turn];
                           next_speaker := next_speaker st |}, [turn]))
      end
  | Team t =>
      match round_robin_run fuel t (next_speaker_index st (rr_name t))
              (thread st) [] with
      | None => None
      | Some (Raise e) => Some (Raise e)
      | Some (Return (index', delta)) =>
          Some (Return ({| thread := thread st ++ delta;
                           next_speaker :=
                             <[rr_name t := index']> (next_speaker st) |},
                        delta))
      end
  end.

(** Modelled from the spec: the roster lookup of the imported
    [SelectorGroupChat]; an identity "not in the configured roster" has no
    participant. *)
Definition find_participant (team : SelectorGroupChat) (who : string)
    : option participant :=
  List.find (λ p, bool_decide (participant_name p = who))
            (sg_participants team).

(** Modelled from the spec: the session loop (the run loop of the imported
    [SelectorGroupChat]): "fetch routing decision, resolve to a runnable
    participant, run it, append resulting turn(s), evaluate global
    termination, repeat or stop". An absent decision goes to the
    driver's fallback policy, and pauses as undecided without one; an
    identity outside the roster is a configuration error, fatal to the
    step; a failed participant run is surfaced as a failed run of the
    session, which aborts with no turn appended for that attempt (the
    source configures no retry). The last component counts the routing
    decisions taken. *)
Fixpoint selector_run (fuel : nat) (team : SelectorGroupChat)
    (st : session) (decisions : nat)
    : option (stop_reason * session * nat) :=
  match fuel with
  | 0 => None
  | S fuel =>
      match sg_selector_func team (thread st) with
      | Raise e => Some (Failed e, st, S decisions)
      | Return decision =>
          let chosen :=
            match decision with
            | Some who => Some who
            | None => fallback (thread st)
            end in
          match chosen with
          | None => Some (Undecided, st, S decisions)
          | Some who =>
              match find_participant team who with
              | None => Some (Failed ValueError, st, S decisions)
              | Some p =>
                  match run_participant (S fuel) p st with
                  | None => None
                  | Some (Raise e) => Some (Failed e, st, S decisions)
                  | Some (Return (st', delta)) =>
                      if SourceMatchTermination (sg_sources team) delta
                      then Some (Terminated, st', S decisions)
                      else selector_run fuel team st' (S decisions)
                  end
              end
          end
      end
  end.

(** Modelled from the spec: [final_team.run_stream(task=...)], whose body
    is in the imported [SelectorGroupChat]: the task is appended to the
    log, then the session loop runs. *)
Definition run_stream (fuel : nat) (team : SelectorGroupChat)
    (st : session) (task : message)
    : option (stop_reason * session * nat) :=
  selector_run fuel team
    {| thread := thread st ++ [task]; next_speaker := next_speaker st |} 0.
End teams.

(** ** Statements about the teams *)

(** The two turns of a sub-run of a content/repair pair on [context], or
    the failure of the first dispatch that fails. *)
Definition pair_turns (model_client : string → list message → inference)
    (content repair : AssistantAgent) (context : list message)
    : result (list message) :=
  first ←' on_messages model_client content context;
  second ←' on_messages model_client repair (context ++ [first]);
  Return [first; second].

(** The protocol of a validating pair, for the sub-run of [team] started at
    its first participant on any context. The content agent is dispatched
    first; if that dispatch fails, so does the sub-run. Otherwise its turn
    does not fire the termination predicate and does not end the sub-run,
    and the repair agent is dispatched on the context extended by it; if
    that dispatch fails, so does the sub-run. Otherwise the repair turn
    fires the predicate and the sub-run ends having produced the content
    turn, then the repair turn, with the content agent next again. The
    predicate fires on no batch of turns without one by [repair]. *)
Definition pair_protocol (model_client : string → list message → inference)
    (team : RoundRobinGroupChat) (content repair : AssistantAgent) : Prop :=
  ∀ (fuel : nat) (context : list message),
    match on_messages model_client content context with
    | Raise e =>
        round_robin_run model_client (S fuel) team 0 context []
        = Some (Raise e)
    | Return first =>
        source first = name content
        ∧ SourceMatchTermination (rr_sources team) [first] = false
        ∧ round_robin_run model_client 1 team 0 context [] = None
        ∧ match on_messages model_client repair (context ++ [first]) with
          | Raise e =>
              round_robin_run model_client (S (S fuel)) team 0 context []
              = Some (Raise e)
          | Return second =>
              source second = name repair
              ∧ SourceMatchTermination (rr_sources team) [second] = true
              ∧ round_robin_run model_client (S (S fuel)) team 0 context []
                = Some (Return (0, [first; second]))
          end
    end
    ∧ (∀ delta, SourceMatchTermination (rr_sources team) delta = true
                ↔ ∃ msg, msg ∈ delta ∧ source msg = name repair).


(** Between runs both pairs are about to start with their content agent. *)
Definition pairs_at_rest (st : session) : Prop :=
  next_speaker_index st "team_insight" = 0
  ∧ next_speaker_index st "team_blueprint" = 0.

Definition new_session : session := {| thread := []; next_speaker := ∅ |}.



(** The turn of a dispatch to a single agent, as a batch of turns. *)
Definition agent_turns (model_client : string → list message → inference)
    (agent : AssistantAgent) (context : list message)
    : result (list message) :=
  turn ←' on_messages model_client agent context;
  Return [turn].

(** What a run that selects a participant gives, by what the participant's
    dispatches give: its turns appended after the task and termination, or
    the failure of the run with only the task appended. *)
Definition stage_outcome (run : option (stop_reason * session * nat))
    (st : session) (task : message) (turns : result (list message)) : Prop :=
  match turns with
  | Return turns =>
      ∃ st', run = Some (Terminated, st', 1)
        ∧ thread st' = thread st ++ [task] ++ turns
  | Raise e =>
      run = Some (Failed e,
                  {| thread := thread st ++ [task];
                     next_speaker := next_speaker st |}, 1)
  end.

(** How a run that selected a participant has settled, from the session
    [st0] the participant was run on: its turns are appended and the run
    terminated, or the run failed and the session is as it was. *)
Definition settled (st0 : session) (turns : result (list message))
    (reason : stop_reason) (st' : session) : Prop :=
  match turns with
  | Return turns => reason = Terminated ∧ thread st' = thread st0 ++ turns
  | Raise e => reason = Failed e ∧ st' = st0
  end.

(** ** Sample logs *)

Definition log_polish : list message :=
  [TextMessage "write a report" "user" {[ "select_agent" := "" ]};
   TextMessage "analysis" "word_insight_agent" ∅;
   TextMessage "{}" "word_insight_json_agent" ∅;
   TextMessage "outline" "word_blueprint_agent" ∅;
   TextMessage "{}" "word_blueprint_json_agent" ∅;
   TextMessage "text" "writer_agent" ∅;
   TextMessage "polish" "user" {[ "select_agent" := "refiner_agent" ]}].

(** Same producers and same last turn as [log_polish]; other payloads,
    another order, repeated turns. *)
Definition log_polish_shuffled : list message :=
  [TextMessage "other" "writer_agent" ∅;
   TextMessage "[]" "word_blueprint_json_agent" {[ "select_agent" := "x" ]};
   TextMessage "other" "writer_agent" ∅;
   TextMessage "" "word_blueprint_agent" ∅;
   TextMessage "" "word_insight_json_agent" ∅;
   TextMessage "" "word_insight_agent" ∅;
   TextMessage "" "word_insight_agent" ∅;
   TextMessage "polish" "user" {[ "select_agent" := "refiner_agent" ]}].

Definition log_out_of_order : list message :=
  [TextMessage "write a report" "user" ∅;
   TextMessage "{}" "word_blueprint_json_agent" ∅;
   TextMessage "next" "user" {[ "select_agent" := "writer_agent" ]}].


(** ** Stand-ins for the collaborators *)

(** The all-defaults instances of the two schemas. *)
Definition default_insight : WordInsightAnalysis :=
  {| existing_information :=
       {| document_type := ""; target_audience := ""; writing_purpose := "";
          style_requirement := ""; key_content := [] |};
     supplementary_questions := [] |}.

Definition default_blueprint : WordBlueprintStructure :=
  {| title := ""; sections := []; estimated_length := "" |}.

(** An inference service that answers every agent in free text. *)
Definition echo_client (who : string) (context : list message) : inference :=
  Answered (Text who).

(** An inference service that answers the two repair agents with a value
    of their schema and the other agents in free text. *)
Definition stub_client (who : string) (context : list message) : inference :=
  if bool_decide (who = "word_insight_json_agent")
  then Answered (Insight default_insight)
  else if bool_decide (who = "word_blueprint_json_agent")
  then Answered (Blueprint default_blueprint)
  else Answered (Text who).


Definition no_fallback (context : list message) : option string := None.

(** The session after a run, when the run completes within [fuel]. *)
Definition after_run (fuel : nat) (st : session) (task select_input : string)
    : session :=
  match run_stream stub_client no_fallback fuel final_team st
          (task_message task select_input) with
  | Some (_, st', _) => st'
  | None => st
  end.

Definition session_drafted : session :=
  after_run 2 (after_run 2 (after_run 2 new_session "report" "") "go" "") "go" "".

(** ** The console driver: [assistant_run] *)

(** [agent_map.get(select_input, select_input)], on the stripped input. *)
Definition select_agent (select_input : string) : string :=
  default select_input (agent_map !! select_input).

(** The mandatory pipeline is over: the three identities tested by
    [selector_func] have all produced a turn. *)
Definition pipeline_done (messages : list message) : Prop :=
  has_spoken "word_insight_json_agent" messages
  ∧ has_spoken "word_blueprint_json_agent" messages
  ∧ has_spoken "writer_agent" messages.


(** The session once a task has been submitted to [run_stream]. *)
Definition with_task (st : session) (task : message) : session :=
  {| thread := thread st ++ [task]; next_speaker := next_speaker st |}.

#[global] Instance has_spoken_dec who messages :
  Decision (has_spoken who messages).
Proof. unfold has_spoken. apply _. Defined.

(** What the console delivers at a prompt: a line, or Ctrl-C. The end of
    the list is the end of the input. *)
Inductive console_input :=
  | Line (text : string)
  | CtrlC.

(** How [assistant_run] ends: [break] on "quit", [break] in the
    [KeyboardInterrupt] handler, an uncaught [EOFError] of [input], an
    uncaught exception of the run, or fuel exhausted inside a run. *)
Inductive exit_status :=
  | Quit
  | Interrupted
  | EOFError
  | RunError (e : exn)
  | OutOfFuel.

Section console.
Variable model_client : string → list message → inference.
Variable fallback : list message → option string.
(** The built-in [str.strip] and [str.lower]. *)
Variable strip : string → string.
Variable lower : string → string.

(** The loop of [assistant_run] over the console input; the printed texts
    and the discarded result of [save_state] are left out. The [try]
    covers the whole body: a [KeyboardInterrupt] at either prompt or out
    of the awaited run ends the loop through the handler; any other
    exception of the run is not caught.
<<
    while True:
        try:
            task = input(...)
            select_input = input(...)
            select_agent = agent_map.get(select_input.strip(), select_input.strip())
            metadata = {"select_agent": select_agent}
            if task.lower() == "quit":
                break
            await Console(final_team.run_stream(task=TextMessage(
                content=task + "/no_think", source="user", metadata=metadata)))
            await final_team.save_state()
        except KeyboardInterrupt:
            break
>> *)
Fixpoint assistant_run (fuel : nat) (stdin : list console_input)
    (st : session) : exit_status * session :=
  match stdin with
  | [] => (EOFError, st)
  | CtrlC :: _ => (Interrupted, st)
  | Line task :: stdin =>
      match stdin with
      | [] => (EOFError, st)
      | CtrlC :: _ => (Interrupted, st)
      | Line select_input :: stdin =>
          if bool_decide (lower task = "quit") then (Quit, st)
          else
            match run_stream model_client fallback fuel final_team st
                    (task_message task (strip select_input)) with
            | None => (OutOfFuel, st)
            | Some (Failed KeyboardInterrupt, st', _) => (Interrupted, st')
            | Some (Failed e, st', _) => (RunError e, st')
            | Some (_, st', _) => assistant_run fuel stdin st'
            end
      end
  end.
End console.

(** Stand-ins for the two built-ins on plain lower-case input. *)
Definition no_strip (s : string) : string := s.
Definition no_lower (s : string) : string := s.

(** ** Properties of the Router *)

Section agent_names_facts.
Implicit Types (messages : list message) (who : string).

Lemma agent_names_foldl_acc (acc : gset string) messages who :
  who ∈ foldl (λ names msg,
                 if truthy (source msg) then names ∪ {[source msg]} else names)
              acc messages
  ↔ who ∈ acc ∨ (truthy who = true ∧ has_spoken who messages).
Proof.
  unfold has_spoken.
  revert acc; induction messages as [|msg messages IH]; intros acc; simpl.
  - rewrite elem_of_nil. tauto.
  - rewrite IH, elem_of_cons. destruct (truthy (source msg)) eqn:Hsrc.
    + rewrite elem_of_union, elem_of_singleton.
      split; [intros [[?| ->]|[? ?]]|intros [?|[? [ ->|?]]]]; auto.
    + split; [intros [?|[? ?]]|intros [?|[Hw [ ->|?]]]]; auto; congruence.
Qed.

Lemma elem_of_agent_names messages who :
  who ∈ agent_names messages ↔ truthy who = true ∧ has_spoken who messages.
Proof.
  unfold agent_names. rewrite agent_names_foldl_acc.
  rewrite elem_of_empty. tauto.
Qed.

Lemma agent_names_nil : agent_names [] = ∅.
Proof. reflexivity. Qed.

Lemma has_spoken_alt who messages :
  has_spoken who messages ↔ ∃ msg, msg ∈ messages ∧ source msg = who.
Proof.
  unfold has_spoken. rewrite list_elem_of_fmap.
  split; intros (msg & ? & ?); exists msg; auto.
Qed.

Lemma has_spoken_last messages who :
  has_spoken who messages → is_Some (last messages).
Proof.
  destruct messages as [|msg messages]; unfold has_spoken; simpl.
  - intros H; by apply elem_of_nil in H.
  - intros _. rewrite last_cons. destruct (last messages); eauto.
Qed.
End agent_names_facts.

(** The three pipeline identities are non-empty strings, so membership in
    [agent_names] coincides with having spoken. *)
Lemma agent_names_insight messages :
  "word_insight_json_agent" ∈ agent_names messages
  ↔ has_spoken "word_insight_json_agent" messages.
Proof. rewrite elem_of_agent_names. simpl. tauto. Qed.

Lemma agent_names_blueprint messages :
  "word_blueprint_json_agent" ∈ agent_names messages
  ↔ has_spoken "word_blueprint_json_agent" messages.
Proof. rewrite elem_of_agent_names. simpl. tauto. Qed.

Lemma agent_names_writer messages :
  "writer_agent" ∈ agent_names messages
  ↔ has_spoken "writer_agent" messages.
Proof. rewrite elem_of_agent_names. simpl. tauto. Qed.

(** The four return sites of [selector_func], by the guards that lead to
    them. *)
Ltac selector_cases :=
  unfold selector_func; repeat case_bool_decide; simpl; try done; tauto.

Lemma selector_func_stage1 messages :
  "word_insight_json_agent" ∉ agent_names messages →
  selector_func messages = Return (Some "team_insight").
Proof. intros. selector_cases. Qed.

Lemma selector_func_stage2 messages :
  "word_insight_json_agent" ∈ agent_names messages →
  "word_blueprint_json_agent" ∉ agent_names messages →
  selector_func messages = Return (Some "team_blueprint").
Proof. intros. selector_cases. Qed.

Lemma selector_func_stage3 messages :
  "word_insight_json_agent" ∈ agent_names messages →
  "word_blueprint_json_agent" ∈ agent_names messages →
  "writer_agent" ∉ agent_names messages →
  selector_func messages = Return (Some "writer_agent").
Proof. intros. selector_cases. Qed.

Lemma selector_func_stage4 messages :
  "word_insight_json_agent" ∈ agent_names messages →
  "word_blueprint_json_agent" ∈ agent_names messages →
  "writer_agent" ∈ agent_names messages →
  selector_func messages =
    (msg ←' index_last messages; Return (metadata msg !! "select_agent")).
Proof. intros. selector_cases. Qed.

(** C1: if the intake pair's repair identity ["word_insight_json_agent"] has
    produced no turn of the log (the empty log included), the Router
    returns ["team_insight"], whatever metadata the turns carry. *)
Theorem selector_func_intake_first messages :
  ¬ has_spoken "word_insight_json_agent" messages →
  selector_func messages = Return (Some "team_insight").
Proof.
  intros H. apply selector_func_stage1. by rewrite agent_names_insight.
Qed.

Lemma selector_func_intake_first_witness :
  selector_func
    [TextMessage "write a report" "user" {[ "select_agent" := "refiner_agent" ]};
     TextMessage "draft" "word_insight_agent" ∅]
  = Return (Some "team_insight").
Proof.
  apply selector_func_intake_first.
  unfold has_spoken. apply (bool_decide_unpack _). vm_compute. exact I.
Defined.

Ltac decide_spoken :=
  unfold has_spoken; apply (bool_decide_unpack _); vm_compute; exact I.

(** C2: if ["word_insight_json_agent"] has produced a turn and
    ["word_blueprint_json_agent"] has not, the Router returns
    ["team_blueprint"]. *)
Theorem selector_func_planning_second messages :
  has_spoken "word_insight_json_agent" messages →
  ¬ has_spoken "word_blueprint_json_agent" messages →
  selector_func messages = Return (Some "team_blueprint").
Proof.
  intros H1 H2. apply selector_func_stage2.
  - by rewrite agent_names_insight.
  - by rewrite agent_names_blueprint.
Qed.

Lemma selector_func_planning_second_witness :
  selector_func
    [TextMessage "write a report" "user" {[ "select_agent" := "" ]};
     TextMessage "analysis" "word_insight_agent" ∅;
     TextMessage "{}" "word_insight_json_agent" ∅;
     TextMessage "go on" "user" {[ "select_agent" := "explainer_agent" ]}]
  = Return (Some "team_blueprint").
Proof. apply selector_func_planning_second; decide_spoken. Defined.

(** C3: if both repair identities have produced turns and ["writer_agent"]
    has not, the Router returns ["writer_agent"]; the metadata of the turns
    is not consulted (the statement holds for every metadata). *)
Theorem selector_func_drafting_third messages :
  has_spoken "word_insight_json_agent" messages →
  has_spoken "word_blueprint_json_agent" messages →
  ¬ has_spoken "writer_agent" messages →
  selector_func messages = Return (Some "writer_agent").
Proof.
  intros H1 H2 H3. apply selector_func_stage3.
  - by rewrite agent_names_insight.
  - by rewrite agent_names_blueprint.
  - by rewrite agent_names_writer.
Qed.

Lemma selector_func_drafting_third_witness :
  selector_func
    [TextMessage "write a report" "user" ∅;
     TextMessage "{}" "word_insight_json_agent" ∅;
     TextMessage "{}" "word_blueprint_json_agent" ∅;
     TextMessage "go on" "user" {[ "select_agent" := "refiner_agent" ]}]
  = Return (Some "writer_agent").
Proof. apply selector_func_drafting_third; decide_spoken. Defined.

(** C4: once the intake repair, planning repair and drafting identities have
    all produced turns, the log has a most recent turn and the Router
    returns the lookup of ["select_agent"] in that turn's metadata: the
    stored value when the key is present, [None] when it is absent. *)
Theorem selector_func_override messages :
  has_spoken "word_insight_json_agent" messages →
  has_spoken "word_blueprint_json_agent" messages →
  has_spoken "writer_agent" messages →
  ∃ msg, last messages = Some msg
    ∧ selector_func messages = Return (metadata msg !! "select_agent")
    ∧ (∀ who, metadata msg !! "select_agent" = Some who →
         selector_func messages = Return (Some who))
    ∧ (metadata msg !! "select_agent" = None →
         selector_func messages = Return None).
Proof.
  intros H1 H2 H3.
  destruct (has_spoken_last _ _ H1) as [msg Hlast]. exists msg.
  assert (selector_func messages = Return (metadata msg !! "select_agent"))
    as Hsel.
  { rewrite selector_func_stage4.
    - unfold index_last. by rewrite Hlast.
    - by rewrite agent_names_insight.
    - by rewrite agent_names_blueprint.
    - by rewrite agent_names_writer. }
  repeat split; [done | done | |]; intros; congruence.
Qed.

Lemma selector_func_override_witness :
  ∃ msg, last log_polish = Some msg
    ∧ selector_func log_polish = Return (metadata msg !! "select_agent")
    ∧ (∀ who, metadata msg !! "select_agent" = Some who →
         selector_func log_polish = Return (Some who))
    ∧ (metadata msg !! "select_agent" = None →
         selector_func log_polish = Return None).
Proof. apply (selector_func_override log_polish); decide_spoken. Defined.

(** The decision depends on the log only through [agent_names] and the
    metadata of the most recent turn. *)
Lemma selector_func_ext messages1 messages2 :
  agent_names messages1 = agent_names messages2 →
  metadata <$> last messages1 = metadata <$> last messages2 →
  selector_func messages1 = selector_func messages2.
Proof.
  intros Hnames Hmeta. unfold selector_func, index_last. rewrite Hnames.
  repeat case_bool_decide; simpl; try done.
  destruct (last messages1), (last messages2); simpl in *; congruence.
Qed.

Lemma agent_names_sources messages1 messages2 :
  list_to_set (source <$> messages1) =@{gset string}
    list_to_set (source <$> messages2) →
  agent_names messages1 = agent_names messages2.
Proof.
  intros Hsrc. apply set_eq. intros who.
  rewrite !elem_of_agent_names. unfold has_spoken.
  rewrite <- !(elem_of_list_to_set (C:=gset string)), Hsrc. done.
Qed.

(** C7: the Router is a function of the set of producer identities of the
    log and of the metadata of its most recent turn: two logs that agree
    on both get the same decision, whatever their payloads and whatever
    the order and multiplicity of their turns. *)
Theorem selector_func_deterministic messages1 messages2 :
  list_to_set (source <$> messages1) =@{gset string}
    list_to_set (source <$> messages2) →
  metadata <$> last messages1 = metadata <$> last messages2 →
  selector_func messages1 = selector_func messages2.
Proof.
  intros Hsrc Hmeta. apply selector_func_ext; [|done].
  by apply agent_names_sources.
Qed.

Lemma selector_func_deterministic_witness :
  selector_func log_polish = selector_func log_polish_shuffled.
Proof.
  apply selector_func_deterministic.
  - apply (bool_decide_unpack _). vm_compute. exact I.
  - reflexivity.
Defined.

(** C8: the Router looks at membership only: a log in which
    ["word_blueprint_json_agent"] has produced a turn while
    ["word_insight_json_agent"] has not still gets ["team_insight"]. *)
Theorem selector_func_out_of_order messages :
  has_spoken "word_blueprint_json_agent" messages →
  ¬ has_spoken "word_insight_json_agent" messages →
  selector_func messages = Return (Some "team_insight").
Proof.
  intros _ H. apply selector_func_stage1. by rewrite agent_names_insight.
Qed.

Lemma selector_func_out_of_order_witness :
  selector_func log_out_of_order = Return (Some "team_insight").
Proof. apply selector_func_out_of_order; decide_spoken. Defined.

(** C10: [selector_func] returns a decision on every log and never raises;
    on the empty log the spoken set is empty and the first branch returns
    ["team_insight"]; whenever indexing the most recent message would
    raise, the first branch returns; and past the first branch, where
    ["word_insight_json_agent"] is in the spoken set, the indexing
    succeeds. *)
Theorem selector_func_total :
  (∀ messages, ∃ decision, selector_func messages = Return decision)
  ∧ agent_names [] = ∅
  ∧ selector_func [] = Return (Some "team_insight")
  ∧ (∀ messages e, index_last messages = Raise e →
       selector_func messages = Return (Some "team_insight"))
  ∧ (∀ messages,
       "word_insight_json_agent" ∈ agent_names messages →
       ∃ msg, index_last messages = Return msg).
Proof.
  assert (∀ messages, "word_insight_json_agent" ∈ agent_names messages →
            ∃ msg, index_last messages = Return msg) as Hindex.
  { intros messages Hin.
    apply agent_names_insight, has_spoken_last in Hin as [msg Hlast].
    exists msg. unfold index_last. by rewrite Hlast. }
  split_and!; [|done|done| |done].
  - intros messages.
    destruct (decide ("word_insight_json_agent" ∈ agent_names messages))
      as [Hin|Hnin].
    + destruct (Hindex _ Hin) as [msg Hmsg].
      unfold selector_func. rewrite Hmsg.
      repeat case_bool_decide; simpl; eauto.
    + rewrite selector_func_stage1 by done. eauto.
  - intros messages e Hraise. apply selector_func_stage1.
    intros Hin. destruct (Hindex _ Hin) as [msg Hmsg]. congruence.
Qed.

(** ** Further properties of the Router *)

Lemma truthy_nonempty who : truthy who = true ↔ who ≠ "".
Proof. destruct who; simpl; split; congruence. Qed.

Lemma has_spoken_app who messages more :
  has_spoken who (messages ++ more)
  ↔ has_spoken who messages ∨ has_spoken who more.
Proof. unfold has_spoken. by rewrite fmap_app, elem_of_app. Qed.

Lemma has_spoken_cons who msg messages :
  has_spoken who (msg :: messages)
  ↔ source msg = who ∨ has_spoken who messages.
Proof.
  unfold has_spoken. rewrite fmap_cons, elem_of_cons.
  split; intros [?|?]; auto.
Qed.

Lemma has_spoken_nil who : ¬ has_spoken who [].
Proof. unfold has_spoken. simpl. apply not_elem_of_nil. Qed.

(** X1: the loop of [selector_func] collects exactly the non-empty producer
    identities of the log: a message whose source is the empty string is
    never counted as a speaker. *)
Theorem agent_names_spec messages :
  agent_names messages
  = list_to_set (source <$> messages) ∖ {[ "" ]}.
Proof.
  apply set_eq. intros who.
  rewrite elem_of_agent_names, elem_of_difference, elem_of_list_to_set.
  rewrite elem_of_singleton, truthy_nonempty. unfold has_spoken. tauto.
Qed.

(** X2: a decision other than the three pipeline participants is always the
    override lookup of the most recent turn, read after the pipeline is
    done: the Router picks no other participant, and is undecided nowhere
    else. *)
Theorem selector_func_inversion messages decision :
  selector_func messages = Return decision →
  decision ∉ [Some "team_insight"; Some "team_blueprint"; Some "writer_agent"] →
  pipeline_done messages
  ∧ ∃ msg, last messages = Some msg
      ∧ metadata msg !! "select_agent" = decision.
Proof.
  intros Hsel Hother.
  rewrite !not_elem_of_cons in Hother. destruct Hother as (H1 & H2 & H3 & _).
  destruct (decide (has_spoken "word_insight_json_agent" messages)) as [Hi|Hi].
  2:{ rewrite selector_func_stage1 in Hsel by (by rewrite agent_names_insight).
      congruence. }
  destruct (decide (has_spoken "word_blueprint_json_agent" messages))
    as [Hb|Hb].
  2:{ rewrite selector_func_stage2 in Hsel
        by (by rewrite ?agent_names_insight, ?agent_names_blueprint).
      congruence. }
  destruct (decide (has_spoken "writer_agent" messages)) as [Hw|Hw].
  2:{ rewrite selector_func_stage3 in Hsel
        by (by rewrite ?agent_names_insight, ?agent_names_blueprint,
                       ?agent_names_writer).
      congruence. }
  split; [done|].
  destruct (has_spoken_last _ _ Hi) as [msg Hlast]. exists msg.
  split; [done|].
  rewrite selector_func_stage4 in Hsel
    by (by rewrite ?agent_names_insight, ?agent_names_blueprint,
                   ?agent_names_writer).
  unfold index_last in Hsel. rewrite Hlast in Hsel. simpl in Hsel. congruence.
Qed.

Lemma selector_func_inversion_witness :
  pipeline_done log_polish
  ∧ ∃ msg, last log_polish = Some msg
      ∧ metadata msg !! "select_agent" = Some "refiner_agent".
Proof.
  apply selector_func_inversion.
  - reflexivity.
  - apply (bool_decide_unpack _). vm_compute. exact I.
Defined.

Lemma pipeline_done_app messages more :
  pipeline_done messages → pipeline_done (messages ++ more).
Proof.
  unfold pipeline_done. rewrite !has_spoken_app. tauto.
Qed.

Lemma selector_func_after_pipeline messages msg :
  pipeline_done messages →
  selector_func (messages ++ [msg]) = Return (metadata msg !! "select_agent").
Proof.
  intros Hdone. apply (pipeline_done_app _ [msg]) in Hdone as (Hi & Hb & Hw).
  rewrite selector_func_stage4
    by (by rewrite ?agent_names_insight, ?agent_names_blueprint,
                   ?agent_names_writer).
  unfold index_last. by rewrite last_snoc.
Qed.

(** X3: once the pipeline is done it is never run again: whatever turns are
    appended, the Router only reads the override of the most recent turn. *)
Theorem selector_func_pipeline_once messages more msg :
  pipeline_done messages →
  selector_func (messages ++ more ++ [msg])
  = Return (metadata msg !! "select_agent").
Proof.
  intros Hdone. rewrite app_assoc.
  apply selector_func_after_pipeline. by apply pipeline_done_app.
Qed.

Lemma selector_func_pipeline_once_witness :
  selector_func
    (log_polish ++ [TextMessage "{}" "word_insight_json_agent" ∅]
       ++ [TextMessage "again" "user" ∅])
  = Return (metadata (TextMessage "again" "user" ∅) !! "select_agent").
Proof.
  apply (selector_func_pipeline_once log_polish
           [TextMessage "{}" "word_insight_json_agent" ∅]
           (TextMessage "again" "user" ∅)).
  repeat split; decide_spoken.
Defined.

(** X4: while the pipeline is not done, turns by other producers (the user, the
    content agents, the polishing and explaining agents) do not move it:
    appending them leaves the decision unchanged, whatever override they
    carry. *)
Theorem selector_func_other_turns messages more :
  ¬ pipeline_done messages →
  (∀ msg, msg ∈ more →
     source msg ∉ ["word_insight_json_agent"; "word_blueprint_json_agent";
                   "writer_agent"]) →
  selector_func (messages ++ more) = selector_func messages.
Proof.
  intros Hnot Hmore.
  assert (∀ who,
            who ∈ ["word_insight_json_agent"; "word_blueprint_json_agent";
                   "writer_agent"] →
            has_spoken who (messages ++ more) ↔ has_spoken who messages)
    as Hsame.
  { intros who Hwho. rewrite has_spoken_app. split; [|by left].
    intros [?|Hin]; [done|]. apply has_spoken_alt in Hin as (msg & Hin & <-).
    by destruct (Hmore msg Hin). }
  assert (∀ who,
            who ∈ ["word_insight_json_agent"; "word_blueprint_json_agent";
                   "writer_agent"] →
            who ∈ agent_names (messages ++ more) ↔ who ∈ agent_names messages)
    as Hnames.
  { intros who Hwho. rewrite !elem_of_agent_names, (Hsame who Hwho). done. }
  pose proof (Hnames "word_insight_json_agent" (list_elem_of_here _ _)) as Hi.
  pose proof (Hnames "word_blueprint_json_agent"
                (list_elem_of_further _ _ _ (list_elem_of_here _ _))) as Hb.
  pose proof (Hnames "writer_agent"
                (list_elem_of_further _ _ _
                   (list_elem_of_further _ _ _ (list_elem_of_here _ _))))
    as Hw.
  assert (¬ ("word_insight_json_agent" ∈ agent_names messages
             ∧ "word_blueprint_json_agent" ∈ agent_names messages
             ∧ "writer_agent" ∈ agent_names messages)) as Hnot'.
  { rewrite agent_names_insight, agent_names_blueprint, agent_names_writer.
    done. }
  clear Hsame Hnames Hmore Hnot.
  unfold selector_func.
  repeat case_bool_decide; simpl; try done; tauto.
Qed.

Lemma selector_func_other_turns_witness :
  selector_func
    (log_out_of_order
       ++ [TextMessage "analysis" "word_insight_agent" ∅;
           TextMessage "go" "user" {[ "select_agent" := "explainer_agent" ]}])
  = selector_func log_out_of_order.
Proof.
  apply selector_func_other_turns.
  - apply (bool_decide_unpack _). vm_compute. exact I.
  - apply Forall_forall. repeat constructor;
      apply (bool_decide_unpack _); vm_compute; exact I.
Defined.

(** ** The override built by [assistant_run] *)

Lemma select_agent_other select_input :
  select_input ≠ "1" → select_input ≠ "2" →
  select_agent select_input = select_input.
Proof.
  intros H1 H2. unfold select_agent, agent_map.
  rewrite lookup_insert_ne by done. by rewrite lookup_singleton_ne.
Qed.

Lemma selector_func_returns messages :
  ∃ decision, selector_func messages = Return decision.
Proof.
  destruct (decide ("word_insight_json_agent" ∈ agent_names messages))
    as [Hin|Hnin].
  - apply agent_names_insight, has_spoken_last in Hin as [msg Hlast].
    unfold selector_func, index_last. rewrite Hlast.
    repeat case_bool_decide; simpl; eauto.
  - rewrite selector_func_stage1 by done. eauto.
Qed.

Lemma task_message_source task select_input :
  source (task_message task select_input) = "user".
Proof. reflexivity. Qed.

Lemma task_message_override task select_input :
  metadata (task_message task select_input) !! "select_agent"
  = Some (select_agent select_input).
Proof. unfold task_message, select_agent. simpl. apply lookup_singleton_eq. Qed.

(** X5: the answer at the agent prompt names a participant of [final_team]
    exactly when it is "1", "2" or the name of one of the five
    participants; any other answer, the empty one included, is stored as
    it is and names nobody. *)
Theorem select_agent_roster select_input :
  select_agent select_input ∈ participant_name <$> sg_participants final_team
  ↔ select_input ∈ ["1"; "2"; "team_insight"; "team_blueprint";
                    "writer_agent"; "refiner_agent"; "explainer_agent"].
Proof.
  change (participant_name <$> sg_participants final_team)
    with ["team_insight"; "team_blueprint"; "writer_agent"; "refiner_agent";
          "explainer_agent"].
  destruct (decide (select_input = "1")) as [->|H1].
  { split; intros _; [apply list_elem_of_here|].
    apply (bool_decide_unpack _). vm_compute. exact I. }
  destruct (decide (select_input = "2")) as [->|H2].
  { split; intros _.
    - apply list_elem_of_further, list_elem_of_here.
    - apply (bool_decide_unpack _). vm_compute. exact I. }
  rewrite select_agent_other by done.
  rewrite (elem_of_cons _ select_input "1"), (elem_of_cons _ select_input "2").
  tauto.
Qed.

(** X6: on a log that ends with the task message of [assistant_run] the
    Router is never undecided: the message always carries the key
    ["select_agent"], so after the pipeline the decision is the resolved
    answer of the agent prompt, also when that answer was empty. *)
Theorem selector_func_cli_decided messages task select_input :
  ∃ who,
    selector_func (messages ++ [task_message task select_input])
    = Return (Some who)
    ∧ (pipeline_done messages → who = select_agent select_input).
Proof.
  set (task_msg := task_message task select_input).
  assert (∀ who, who ≠ "user" →
            has_spoken who (messages ++ [task_msg]) ↔ has_spoken who messages)
    as Htask.
  { intros who Hwho. rewrite has_spoken_app, has_spoken_cons.
    unfold task_msg. rewrite task_message_source.
    pose proof (has_spoken_nil who). split; [|tauto].
    intros [?|[?|?]]; [done|congruence|contradiction]. }
  destruct (decide (has_spoken "word_insight_json_agent" messages)) as [Hi|Hi].
  2:{ exists "team_insight". split; [|by intros [? _]].
      apply selector_func_stage1.
      by rewrite agent_names_insight, Htask. }
  destruct (decide (has_spoken "word_blueprint_json_agent" messages))
    as [Hb|Hb].
  2:{ exists "team_blueprint". split; [|by intros (_ & ? & _)].
      apply selector_func_stage2.
      - by rewrite agent_names_insight, Htask.
      - by rewrite agent_names_blueprint, Htask. }
  destruct (decide (has_spoken "writer_agent" messages)) as [Hw|Hw].
  2:{ exists "writer_agent". split; [|by intros (_ & _ & ?)].
      apply selector_func_stage3.
      - by rewrite agent_names_insight, Htask.
      - by rewrite agent_names_blueprint, Htask.
      - by rewrite agent_names_writer, Htask. }
  exists (select_agent select_input). split; [|done].
  rewrite selector_func_after_pipeline by done.
  unfold task_msg. by rewrite task_message_override.
Qed.

(** ** Properties of the teams *)

Lemma SourceMatchTermination_spec sources delta :
  SourceMatchTermination sources delta = true
  ↔ ∃ msg, msg ∈ delta ∧ source msg ∈ sources.
Proof.
  unfold SourceMatchTermination. rewrite existsb_exists.
  split; intros (msg & Hin & Hsrc); exists msg.
  - apply list_elem_of_In in Hin. apply bool_decide_eq_true in Hsrc. done.
  - apply list_elem_of_In in Hin. split; [done|]. by apply bool_decide_eq_true.
Qed.

Lemma SourceMatchTermination_app sources delta1 delta2 :
  SourceMatchTermination sources (delta1 ++ delta2)
  = SourceMatchTermination sources delta1
    || SourceMatchTermination sources delta2.
Proof. apply existsb_app. Qed.

Lemma SourceMatchTermination_singleton sources msg :
  SourceMatchTermination sources [msg] = bool_decide (source msg ∈ sources).
Proof. unfold SourceMatchTermination. simpl. apply orb_false_r. Qed.



#[local] Arguments SourceMatchTermination : simpl never.

Section teams_facts.
Context (model_client : string → list message → inference).
Context (fallback : list message → option string).

(** A dispatch that succeeds yields one turn, tagged with the agent's
    identity and carrying a value of its [output_content_type]. *)
Lemma on_messages_Return agent context turn :
  on_messages model_client agent context = Return turn →
  source turn = name agent
  ∧ conforms (output_content_type agent) (content turn) = true
  ∧ metadata turn = ∅.
Proof.
  unfold on_messages.
  destruct (model_client (name agent) context) as [answer| |]; [|done..].
  destruct (conforms (output_content_type agent) answer) eqn:Hc; [|done].
  by intros [= <-].
Qed.

Lemma on_messages_Raise agent context e :
  on_messages model_client agent context = Raise e →
  e = RuntimeError ∨ e = KeyboardInterrupt.
Proof.
  unfold on_messages.
  destruct (model_client (name agent) context) as [answer| |].
  - destruct (conforms (output_content_type agent) answer); [done|].
    intros [= <-]. by left.
  - intros [= <-]. by left.
  - intros [= <-]. by right.
Qed.


(** A speaker's turn fires the predicate exactly when its own identity
    is a configured source. *)
Lemma SourceMatchTermination_on_messages sources agent context turn :
  on_messages model_client agent context = Return turn →
  SourceMatchTermination sources [turn] = bool_decide (name agent ∈ sources).
Proof.
  intros (Hsrc & _)%on_messages_Return.
  by rewrite SourceMatchTermination_singleton, Hsrc.
Qed.


(** The sub-run of any content/repair pair stopped by the repair
    identity, started at the content agent. *)
Lemma validating_pair_first_dispatch team content repair fuel context :
  rr_participants team = [content; repair] →
  rr_sources team = [name repair] →
  name content ≠ name repair →
  match on_messages model_client content context with
  | Raise e =>
      round_robin_run model_client (S fuel) team 0 context [] = Some (Raise e)
  | Return first =>
      SourceMatchTermination (rr_sources team) [first] = false
      ∧ round_robin_run model_client 1 team 0 context [] = None
      ∧ round_robin_run model_client (S (S fuel)) team 0 context []
        = match on_messages model_client repair (context ++ [first]) with
          | Raise e => Some (Raise e)
          | Return second => Some (Return (0, [first; second]))
          end
  end.
Proof.
  intros Hp Hs Hne. destruct team as [ps nm srcs]. simpl in Hp, Hs. subst.
  destruct (on_messages model_client content context) as [first|e] eqn:Hfirst.
  - assert (SourceMatchTermination [name repair] [first] = false) as Hquiet.
    { rewrite (SourceMatchTermination_on_messages _ _ _ _ Hfirst).
      apply bool_decide_eq_false_2. by rewrite list_elem_of_singleton. }
    simpl. rewrite !app_nil_r, Hfirst, Hquiet. split_and!; [done|done|].
    destruct (on_messages model_client repair (context ++ [first]))
      as [second|e] eqn:Hsecond; [|done].
    rewrite (SourceMatchTermination_on_messages _ _ _ _ Hsecond).
    rewrite bool_decide_eq_true_2; [done|]. by apply list_elem_of_singleton.
  - simpl. by rewrite app_nil_r, Hfirst.
Qed.

Lemma validating_pair_sub_run team content repair fuel context :
  rr_participants team = [content; repair] →
  rr_sources team = [name repair] →
  name content ≠ name repair →
  round_robin_run model_client (S (S fuel)) team 0 context []
  = Some (turns ←' pair_turns model_client content repair context;
          Return (0, turns)).
Proof.
  intros Hp Hs Hne.
  pose proof (validating_pair_first_dispatch team content repair (S fuel)
                context Hp Hs Hne) as Hfirst.
  pose proof (validating_pair_first_dispatch team content repair fuel
                context Hp Hs Hne) as Hboth.
  unfold pair_turns.
  destruct (on_messages model_client content context) as [first|e].
  - destruct Hboth as (_ & _ & ->). cbn [bind].
    by destruct (on_messages model_client repair (context ++ [first])).
  - by rewrite Hfirst.
Qed.

Lemma pair_protocol_intro team content repair :
  rr_participants team = [content; repair] →
  rr_sources team = [name repair] →
  name content ≠ name repair →
  pair_protocol model_client team content repair.
Proof.
  intros Hp Hs Hne fuel context. split.
  - pose proof (validating_pair_first_dispatch team content repair fuel
                  context Hp Hs Hne) as Hrun.
    destruct (on_messages model_client content context)
      as [first|e] eqn:Hfirst; [|done].
    destruct Hrun as (Hquiet & Hshort & Hrun).
    split_and!; [|done|done|].
    + by apply on_messages_Return in Hfirst as (? & _).
    + destruct (on_messages model_client repair (context ++ [first]))
        as [second|e] eqn:Hsecond; [|done].
      split_and!; [|  |done].
      * by apply on_messages_Return in Hsecond as (? & _).
      * rewrite (SourceMatchTermination_on_messages _ _ _ _ Hsecond), Hs.
        apply bool_decide_eq_true_2. by apply list_elem_of_singleton.
  - intros delta. rewrite SourceMatchTermination_spec, Hs.
    by setoid_rewrite list_elem_of_singleton.
Qed.

(** C6: the sub-runs of [team_insight] and [team_blueprint] follow the
    pair protocol. Started at the content agent, a sub-run whose two
    dispatches succeed produces the content agent's turn and then the
    repair agent's turn and ends there, with the content agent next again;
    the content agent's turn alone does not end the sub-run, and only a
    turn produced by the repair identity (["word_insight_json_agent"],
    ["word_blueprint_json_agent"]) fires the pair's termination predicate.
    A sub-run in which a dispatch fails ends as a failed participant run
    with the error of that dispatch. *)
Theorem validating_pairs_protocol :
  pair_protocol model_client team_insight
    word_insight_agent word_insight_json_agent
  ∧ pair_protocol model_client team_blueprint
      word_blueprint_agent word_blueprint_json_agent.
Proof. split; by apply pair_protocol_intro. Qed.
End teams_facts.

(** ** Schema conformance of the repair turns *)

Section schema_facts.
Context (model_client : string → list message → inference).
Context (fallback : list message → option string).








End schema_facts.

(** ** The session loop of [final_team] *)

Section session_facts.
Context (model_client : string → list message → inference).
Context (fallback : list message → option string).

Lemma pair_turns_Return content repair context turns :
  pair_turns model_client content repair context = Return turns →
  ∃ first second,
    turns = [first; second]
    ∧ on_messages model_client content context = Return first
    ∧ on_messages model_client repair (context ++ [first]) = Return second.
Proof.
  unfold pair_turns.
  destruct (on_messages model_client content context)
    as [first|e] eqn:Hfirst; [|done].
  simpl.
  destruct (on_messages model_client repair (context ++ [first]))
    as [second|e] eqn:Hsecond; [|done].
  intros [= <-]. exists first, second. by split_and!.
Qed.

Lemma pair_turns_Raise content repair context e :
  pair_turns model_client content repair context = Raise e →
  e = RuntimeError ∨ e = KeyboardInterrupt.
Proof.
  unfold pair_turns.
  destruct (on_messages model_client content context) as [first|e1] eqn:H1.
  - simpl.
    destruct (on_messages model_client repair (context ++ [first]))
      as [second|e2] eqn:H2; [done|].
    intros [= <-]. by eapply on_messages_Raise.
  - intros [= <-]. by eapply on_messages_Raise.
Qed.

Lemma agent_turns_Return agent context turns :
  agent_turns model_client agent context = Return turns →
  ∃ turn, turns = [turn]
    ∧ on_messages model_client agent context = Return turn.
Proof.
  unfold agent_turns.
  destruct (on_messages model_client agent context) as [turn|e] eqn:Hturn;
    [|done].
  intros [= <-]. exists turn. by split_and!.
Qed.

Lemma agent_turns_Raise agent context e :
  agent_turns model_client agent context = Raise e →
  e = RuntimeError ∨ e = KeyboardInterrupt.
Proof.
  unfold agent_turns.
  destruct (on_messages model_client agent context) as [turn|e1] eqn:H1;
    [done|].
  intros [= <-]. by eapply on_messages_Raise.
Qed.

Lemma pairs_at_rest_insert st who delta :
  pairs_at_rest st →
  pairs_at_rest {| thread := delta;
                   next_speaker := <[who := 0]> (next_speaker st) |}.
Proof.
  unfold pairs_at_rest, next_speaker_index; simpl. intros [Hi Hb].
  split.
  - destruct (decide (who = "team_insight")) as [->|Hne].
    + by rewrite lookup_insert_eq.
    + by rewrite lookup_insert_ne.
  - destruct (decide (who = "team_blueprint")) as [->|Hne].
    + by rewrite lookup_insert_eq.
    + by rewrite lookup_insert_ne.
Qed.

Lemma run_participant_agent fuel agent st :
  run_participant model_client fuel (Agent agent) st
  = Some (turns ←' agent_turns model_client agent (thread st);
          Return ({| thread := thread st ++ turns;
                     next_speaker := next_speaker st |}, turns)).
Proof.
  unfold agent_turns. simpl.
  by destruct (on_messages model_client agent (thread st)).
Qed.

Lemma run_participant_team_insight fuel st :
  pairs_at_rest st →
  run_participant model_client (S (S fuel)) (Team team_insight) st
  = Some (turns ←' pair_turns model_client word_insight_agent
                     word_insight_json_agent (thread st);
          Return ({| thread := thread st ++ turns;
                     next_speaker :=
                       <["team_insight" := 0]> (next_speaker st) |}, turns)).
Proof.
  intros [Hins _]. unfold run_participant.
  change (rr_name team_insight) with "team_insight". rewrite Hins.
  rewrite (validating_pair_sub_run model_client team_insight
             word_insight_agent word_insight_json_agent) by done.
  by destruct (pair_turns model_client word_insight_agent
                 word_insight_json_agent (thread st)).
Qed.

Lemma run_participant_team_blueprint fuel st :
  pairs_at_rest st →
  run_participant model_client (S (S fuel)) (Team team_blueprint) st
  = Some (turns ←' pair_turns model_client word_blueprint_agent
                     word_blueprint_json_agent (thread st);
          Return ({| thread := thread st ++ turns;
                     next_speaker :=
                       <["team_blueprint" := 0]> (next_speaker st) |}, turns)).
Proof.
  intros [_ Hblue]. unfold run_participant.
  change (rr_name team_blueprint) with "team_blueprint". rewrite Hblue.
  rewrite (validating_pair_sub_run model_client team_blueprint
             word_blueprint_agent word_blueprint_json_agent) by done.
  by destruct (pair_turns model_client word_blueprint_agent
                 word_blueprint_json_agent (thread st)).
Qed.

Lemma SourceMatchTermination_pair_turns sources content repair context turns :
  pair_turns model_client content repair context = Return turns →
  name repair ∈ sources →
  SourceMatchTermination sources turns = true.
Proof.
  intros (first & second & -> & _ & Hsecond)%pair_turns_Return Hin.
  change [first; second] with ([first] ++ [second]).
  rewrite SourceMatchTermination_app.
  rewrite (SourceMatchTermination_on_messages _ _ _ _ _ Hsecond).
  rewrite (bool_decide_eq_true_2 _ Hin). apply orb_true_r.
Qed.

Lemma SourceMatchTermination_agent_turns sources agent context turns :
  agent_turns model_client agent context = Return turns →
  name agent ∈ sources →
  SourceMatchTermination sources turns = true.
Proof.
  intros (turn & -> & Hturn)%agent_turns_Return Hin.
  rewrite (SourceMatchTermination_on_messages _ _ _ _ _ Hturn).
  by apply bool_decide_eq_true_2.
Qed.

(** Every participant of [final_team], run on a session whose pairs are
    at rest, either completes, appends turns on which the global
    termination predicate fires and leaves the pairs at rest, or fails on a
    dispatch. *)
Lemma run_participant_final_team fuel p st :
  p ∈ sg_participants final_team →
  pairs_at_rest st →
  (∃ st' delta,
     run_participant model_client (S (S fuel)) p st
     = Some (Return (st', delta))
     ∧ thread st' = thread st ++ delta
     ∧ delta ≠ []
     ∧ pairs_at_rest st'
     ∧ SourceMatchTermination (sg_sources final_team) delta = true)
  ∨ (∃ e,
       run_participant model_client (S (S fuel)) p st = Some (Raise e)
       ∧ (e = RuntimeError ∨ e = KeyboardInterrupt)).
Proof.
  intros Hp Hrest.
  unfold final_team in Hp; simpl in Hp.
  rewrite !elem_of_cons, elem_of_nil in Hp.
  destruct Hp as [->|[->|[->|[->|[->|[]]]]]].
  - rewrite run_participant_team_insight by done.
    destruct (pair_turns model_client word_insight_agent
                word_insight_json_agent (thread st)) as [turns|e] eqn:Hturns.
    + left. do 2 eexists. split_and!; [done|done| | |].
      * by apply pair_turns_Return in Hturns as (? & ? & -> & _).
      * by apply pairs_at_rest_insert.
      * eapply SourceMatchTermination_pair_turns; [done|].
        apply (bool_decide_unpack _). vm_compute. exact I.
    + right. exists e. split; [done|]. by eapply pair_turns_Raise.
  - rewrite run_participant_team_blueprint by done.
    destruct (pair_turns model_client word_blueprint_agent
                word_blueprint_json_agent (thread st)) as [turns|e] eqn:Hturns.
    + left. do 2 eexists. split_and!; [done|done| | |].
      * by apply pair_turns_Return in Hturns as (? & ? & -> & _).
      * by apply pairs_at_rest_insert.
      * eapply SourceMatchTermination_pair_turns; [done|].
        apply (bool_decide_unpack _). vm_compute. exact I.
    + right. exists e. split; [done|]. by eapply pair_turns_Raise.
  - rewrite run_participant_agent.
    destruct (agent_turns model_client writer_agent (thread st))
      as [turns|e] eqn:Hturns.
    + left. do 2 eexists. split_and!; [done|done| |done|].
      * by apply agent_turns_Return in Hturns as (? & -> & _).
      * eapply SourceMatchTermination_agent_turns; [done|].
        apply (bool_decide_unpack _). vm_compute. exact I.
    + right. exists e. split; [done|]. by eapply agent_turns_Raise.
  - rewrite run_participant_agent.
    destruct (agent_turns model_client refiner_agent (thread st))
      as [turns|e] eqn:Hturns.
    + left. do 2 eexists. split_and!; [done|done| |done|].
      * by apply agent_turns_Return in Hturns as (? & -> & _).
      * eapply SourceMatchTermination_agent_turns; [done|].
        apply (bool_decide_unpack _). vm_compute. exact I.
    + right. exists e. split; [done|]. by eapply agent_turns_Raise.
  - rewrite run_participant_agent.
    destruct (agent_turns model_client explainer_agent (thread st))
      as [turns|e] eqn:Hturns.
    + left. do 2 eexists. split_and!; [done|done| |done|].
      * by apply agent_turns_Return in Hturns as (? & -> & _).
      * eapply SourceMatchTermination_agent_turns; [done|].
        apply (bool_decide_unpack _). vm_compute. exact I.
    + right. exists e. split; [done|]. by eapply agent_turns_Raise.
Qed.

Lemma find_participant_roster team who p :
  find_participant team who = Some p →
  p ∈ sg_participants team ∧ participant_name p = who.
Proof.
  unfold find_participant. intros [Hin Hname]%find_some.
  split; [by apply list_elem_of_In|]. by apply bool_decide_eq_true in Hname.
Qed.

(** One run of the session loop of [final_team] from a log whose pairs
    are at rest: the Router is consulted once, and the run ends. *)
Lemma selector_run_final_team fuel st :
  pairs_at_rest st →
  ∃ reason st',
    selector_run model_client fallback (S (S fuel)) final_team st 0
      = Some (reason, st', 1)
    ∧ pairs_at_rest st'
    ∧ match reason with
      | Terminated =>
          ∃ delta, thread st' = thread st ++ delta ∧ delta ≠ []
            ∧ SourceMatchTermination (sg_sources final_team) delta = true
      | Undecided | Failed _ => st' = st
      end.
Proof.
  intros Hrest.
  cbn [selector_run sg_selector_func final_team].
  fold final_team.
  destruct (selector_func (thread st)) as [decision|e]; [|by eauto].
  set (chosen := match decision with
                 | Some who => Some who
                 | None => fallback (thread st)
                 end).
  destruct chosen as [who|]; [|by eauto].
  destruct (find_participant final_team who) as [p|] eqn:Hfind; [|by eauto].
  apply find_participant_roster in Hfind as [Hin _].
  destruct (run_participant_final_team fuel p st Hin Hrest)
    as [(st' & delta & -> & Hthread & Hne & Hrest' & Hfire)|(e & -> & _)].
  - rewrite Hfire. exists Terminated, st'. split_and!; [done|done|].
    by exists delta.
  - by exists (Failed e), st.
Qed.

(** C9: the global termination predicate of [final_team] fires on a batch
    of turns exactly when one of them is produced by one of the five
    configured identities; a turn by a content agent or by the user does
    not fire it; and every run started by [assistant_run] on a session
    whose pairs are at rest takes exactly one routing decision and then
    stops: either the selected participant has run, its turns are
    appended and termination has fired, or no turn is appended. *)
Theorem final_team_one_decision :
  (∀ delta,
     SourceMatchTermination (sg_sources final_team) delta = true
     ↔ ∃ msg, msg ∈ delta
         ∧ source msg ∈ ["word_insight_json_agent";
                         "word_blueprint_json_agent";
                         "writer_agent"; "refiner_agent"; "explainer_agent"])
  ∧ (∀ msg,
       source msg ∈ ["word_insight_agent"; "word_blueprint_agent"; "user"] →
       SourceMatchTermination (sg_sources final_team) [msg] = false)
  ∧ (∀ fuel st task select_input,
       pairs_at_rest st →
       ∃ reason st',
         run_stream model_client fallback (S (S fuel)) final_team st
           (task_message task select_input) = Some (reason, st', 1)
         ∧ pairs_at_rest st'
         ∧ match reason with
           | Terminated =>
               ∃ delta,
                 thread st'
                   = thread st ++ [task_message task select_input] ++ delta
                 ∧ delta ≠ []
                 ∧ SourceMatchTermination (sg_sources final_team) delta
                   = true
           | Undecided | Failed _ =>
               thread st' = thread st ++ [task_message task select_input]
           end).
Proof.
  split_and!.
  - intros delta. apply SourceMatchTermination_spec.
  - intros msg Hsrc. rewrite SourceMatchTermination_singleton.
    rewrite !elem_of_cons, elem_of_nil in Hsrc.
    destruct Hsrc as [Hs|[Hs|[Hs|[]]]]; rewrite Hs; reflexivity.
  - intros fuel st task select_input Hrest. unfold run_stream.
    set (st0 := {| thread := thread st ++ [task_message task select_input];
                   next_speaker := next_speaker st |}).
    destruct (selector_run_final_team fuel st0)
      as (reason & st' & Hrun & Hrest' & Hend); [done|].
    exists reason, st'. split_and!; [done|done|].
    destruct reason.
    + destruct Hend as (delta & Hthread & Hne & Hfire).
      exists delta. rewrite Hthread. simpl. by rewrite <- app_assoc.
    + by rewrite Hend.
    + by rewrite Hend.
Qed.
End session_facts.

(** ** Runs of [final_team] started by [assistant_run] *)

Section runs.
Context (model_client : string → list message → inference).

Lemma has_spoken_pair_turns who content repair context turns :
  pair_turns model_client content repair context = Return turns →
  has_spoken who turns ↔ who = name content ∨ who = name repair.
Proof.
  intros (first & second & -> & Hfirst & Hsecond)%pair_turns_Return.
  apply on_messages_Return in Hfirst as (Hsrc1 & _).
  apply on_messages_Return in Hsecond as (Hsrc2 & _).
  rewrite !has_spoken_cons, Hsrc1, Hsrc2.
  pose proof (has_spoken_nil who).
  split; [intros [?|[?|?]]|intros [?|?]]; auto; contradiction.
Qed.

Lemma has_spoken_agent_turns who agent context turns :
  agent_turns model_client agent context = Return turns →
  has_spoken who turns ↔ who = name agent.
Proof.
  intros (turn & -> & Hturn)%agent_turns_Return.
  apply on_messages_Return in Hturn as (Hsrc & _).
  rewrite has_spoken_cons, Hsrc. pose proof (has_spoken_nil who).
  split; [intros [?|?]|intros ?]; auto; contradiction.
Qed.

Lemma has_spoken_task who messages task select_input :
  who ≠ "user" →
  has_spoken who (messages ++ [task_message task select_input])
  ↔ has_spoken who messages.
Proof.
  intros Hwho. rewrite has_spoken_app, has_spoken_cons, task_message_source.
  pose proof (has_spoken_nil who). split; [|tauto].
  intros [?|[?|?]]; [done|congruence|contradiction].
Qed.

Lemma has_spoken_task_list who messages task select_input :
  has_spoken who (messages ++ [task_message task select_input])
  ↔ has_spoken who messages ∨ who = "user".
Proof.
  rewrite has_spoken_app, has_spoken_cons, task_message_source.
  pose proof (has_spoken_nil who).
  split; [intros [?|[?|?]]|intros [?|?]]; auto; contradiction.
Qed.

(** One pass of the session loop, by what the Router, the roster and the
    participant's run say. *)
Lemma selector_run_terminated fallback fuel st n who p st' delta :
  selector_func (thread st) = Return (Some who) →
  find_participant final_team who = Some p →
  run_participant model_client (S fuel) p st = Some (Return (st', delta)) →
  SourceMatchTermination (sg_sources final_team) delta = true →
  selector_run model_client fallback (S fuel) final_team st n
  = Some (Terminated, st', S n).
Proof.
  intros Hsel Hfind Hrun Hfire.
  cbn [selector_run sg_selector_func final_team]. fold final_team.
  by rewrite Hsel, Hfind, Hrun, Hfire.
Qed.

Lemma selector_run_failed fallback fuel st n who p e :
  selector_func (thread st) = Return (Some who) →
  find_participant final_team who = Some p →
  run_participant model_client (S fuel) p st = Some (Raise e) →
  selector_run model_client fallback (S fuel) final_team st n
  = Some (Failed e, st, S n).
Proof.
  intros Hsel Hfind Hrun.
  cbn [selector_run sg_selector_func final_team]. fold final_team.
  by rewrite Hsel, Hfind, Hrun.
Qed.

Lemma selector_run_unknown fallback fuel st n who :
  selector_func (thread st) = Return (Some who) →
  find_participant final_team who = None →
  selector_run model_client fallback (S fuel) final_team st n
  = Some (Failed ValueError, st, S n).
Proof.
  intros Hsel Hfind.
  cbn [selector_run sg_selector_func final_team]. fold final_team.
  by rewrite Hsel, Hfind.
Qed.

Lemma find_participant_names team who :
  is_Some (find_participant team who)
  ↔ who ∈ participant_name <$> sg_participants team.
Proof.
  unfold find_participant.
  induction (sg_participants team) as [|p ps IH]; simpl.
  - split; [by intros [? ?]|by intros ?%elem_of_nil].
  - rewrite elem_of_cons. case_bool_decide as Hp; simpl.
    + split; [by left|eauto].
    + rewrite IH. split; [by right|]. intros [?|?]; [congruence|done].
Qed.

Lemma pairs_at_rest_with_task st task :
  pairs_at_rest st → pairs_at_rest (with_task st task).
Proof. done. Qed.

(** A run that selects a participant of the pipeline settles by what the
    participant's dispatches give. *)
Lemma selector_run_settled fuel st who p turns next :
  selector_func (thread st) = Return (Some who) →
  find_participant final_team who = Some p →
  run_participant model_client (S fuel) p st
  = Some (ts ←' turns;
          Return ({| thread := thread st ++ ts; next_speaker := next |}, ts)) →
  (∀ ts, turns = Return ts →
         SourceMatchTermination (sg_sources final_team) ts = true) →
  ∃ reason st',
    (∀ fallback,
       selector_run model_client fallback (S fuel) final_team st 0
       = Some (reason, st', 1))
    ∧ settled st turns reason st'
    ∧ (st' = st ∨ next_speaker st' = next).
Proof.
  intros Hsel Hfind Hrun Hfire. destruct turns as [ts|e]; simpl in Hrun.
  - exists Terminated, {| thread := thread st ++ ts; next_speaker := next |}.
    split_and!; [|by split|by right].
    intros fallback.
    eapply selector_run_terminated; [done..|]. by apply Hfire.
  - exists (Failed e), st. split_and!; [|by split|by left].
    intros fallback. by eapply selector_run_failed.
Qed.

(** The five ways a run started by [assistant_run] can go, from a session
    whose pairs are at rest; none of them consults the fallback policy. *)
Lemma run_stream_cases fuel st task select_input :
  pairs_at_rest st →
  let task_msg := task_message task select_input in
  let log := thread st ++ [task_msg] in
  ∃ reason st',
    (∀ fallback,
       run_stream model_client fallback (S (S fuel)) final_team st task_msg
       = Some (reason, st', 1))
    ∧ pairs_at_rest st'
    ∧ ((¬ has_spoken "word_insight_json_agent" (thread st)
        ∧ settled (with_task st task_msg)
            (pair_turns model_client word_insight_agent
               word_insight_json_agent log) reason st')
       ∨ (has_spoken "word_insight_json_agent" (thread st)
          ∧ ¬ has_spoken "word_blueprint_json_agent" (thread st)
          ∧ settled (with_task st task_msg)
              (pair_turns model_client word_blueprint_agent
                 word_blueprint_json_agent log) reason st')
       ∨ (has_spoken "word_insight_json_agent" (thread st)
          ∧ has_spoken "word_blueprint_json_agent" (thread st)
          ∧ ¬ has_spoken "writer_agent" (thread st)
          ∧ settled (with_task st task_msg)
              (agent_turns model_client writer_agent log) reason st')
       ∨ (pipeline_done (thread st)
          ∧ (select_agent select_input
               ∈ participant_name <$> sg_participants final_team)
          ∧ ((reason = Terminated
              ∧ ∃ delta, thread st' = log ++ delta ∧ delta ≠ [])
             ∨ ((reason = Failed RuntimeError
                 ∨ reason = Failed KeyboardInterrupt)
                ∧ st' = with_task st task_msg)))
       ∨ (pipeline_done (thread st)
          ∧ (select_agent select_input
               ∉ participant_name <$> sg_participants final_team)
          ∧ reason = Failed ValueError
          ∧ st' = with_task st task_msg)).
Proof.
  intros Hrest task_msg log. subst log.
  pose proof (pairs_at_rest_with_task st task_msg Hrest) as Hrest0.
  assert (∀ who, who ≠ "user" →
            has_spoken who (thread st ++ [task_msg])
            ↔ has_spoken who (thread st)) as Htask.
  { intros who Hwho. by apply has_spoken_task. }
  unfold run_stream. fold (with_task st task_msg).
  destruct (decide (has_spoken "word_insight_json_agent" (thread st)))
    as [Hi|Hi].
  2:{ destruct (selector_run_settled (S fuel) (with_task st task_msg)
                  "team_insight" (Team team_insight)
                  (pair_turns model_client word_insight_agent
                     word_insight_json_agent (thread st ++ [task_msg]))
                  (<["team_insight" := 0]> (next_speaker st)))
        as (reason & st' & Hrun & Hsettled & Hnext).
      - apply selector_func_stage1. simpl.
        by rewrite agent_names_insight, Htask.
      - reflexivity.
      - by rewrite run_participant_team_insight.
      - intros ts Hts. eapply SourceMatchTermination_pair_turns; [done|].
        apply (bool_decide_unpack _). vm_compute. exact I.
      - exists reason, st'. split_and!; [done| |by left].
        destruct Hnext as [->|Hnext]; [done|].
        destruct st' as [th nx]. simpl in Hnext. subst nx.
        by apply pairs_at_rest_insert. }
  destruct (decide (has_spoken "word_blueprint_json_agent" (thread st)))
    as [Hb|Hb].
  2:{ destruct (selector_run_settled (S fuel) (with_task st task_msg)
                  "team_blueprint" (Team team_blueprint)
                  (pair_turns model_client word_blueprint_agent
                     word_blueprint_json_agent (thread st ++ [task_msg]))
                  (<["team_blueprint" := 0]> (next_speaker st)))
        as (reason & st' & Hrun & Hsettled & Hnext).
      - apply selector_func_stage2; simpl.
        + by rewrite agent_names_insight, Htask.
        + by rewrite agent_names_blueprint, Htask.
      - reflexivity.
      - by rewrite run_participant_team_blueprint.
      - intros ts Hts. eapply SourceMatchTermination_pair_turns; [done|].
        apply (bool_decide_unpack _). vm_compute. exact I.
      - exists reason, st'. split_and!; [done| |by right; left].
        destruct Hnext as [->|Hnext]; [done|].
        destruct st' as [th nx]. simpl in Hnext. subst nx.
        by apply pairs_at_rest_insert. }
  destruct (decide (has_spoken "writer_agent" (thread st))) as [Hw|Hw].
  2:{ destruct (selector_run_settled (S fuel) (with_task st task_msg)
                  "writer_agent" (Agent writer_agent)
                  (agent_turns model_client writer_agent
                     (thread st ++ [task_msg]))
                  (next_speaker st))
        as (reason & st' & Hrun & Hsettled & Hnext).
      - apply selector_func_stage3; simpl.
        + by rewrite agent_names_insight, Htask.
        + by rewrite agent_names_blueprint, Htask.
        + by rewrite agent_names_writer, Htask.
      - reflexivity.
      - by rewrite run_participant_agent.
      - intros ts Hts. eapply SourceMatchTermination_agent_turns; [done|].
        apply (bool_decide_unpack _). vm_compute. exact I.
      - exists reason, st'. split_and!; [done| |by right; right; left].
        destruct Hnext as [->|Hnext]; [done|].
        destruct st' as [th nx]. simpl in Hnext. by subst nx. }
  assert (pipeline_done (thread st)) as Hdone by done.
  assert (selector_func (thread (with_task st task_msg))
          = Return (Some (select_agent select_input))) as Hsel.
  { simpl. rewrite selector_func_after_pipeline by done.
    unfold task_msg. by rewrite task_message_override. }
  destruct (find_participant final_team (select_agent select_input))
    as [p|] eqn:Hfind.
  - pose proof Hfind as [Hin _]%find_participant_roster.
    assert (select_agent select_input
              ∈ participant_name <$> sg_participants final_team) as Hroster.
    { apply find_participant_names. by rewrite Hfind. }
    destruct (run_participant_final_team model_client fuel p _ Hin Hrest0)
      as [(st' & delta & Hrun & Hthread & Hne & Hrest' & Hfire)
         |(e & Hrun & He)].
    + exists Terminated, st'. split_and!; [|done|].
      * intros fallback.
        by apply (selector_run_terminated fallback _ _ _
                    (select_agent select_input) p st' delta).
      * do 3 right. left. split_and!; [done|done|].
        left. split; [done|]. by exists delta.
    + exists (Failed e), (with_task st task_msg). split_and!; [|done|].
      * intros fallback.
        by apply (selector_run_failed fallback _ _ _
                    (select_agent select_input) p e).
      * do 3 right. left. split_and!; [done|done|].
        right. split; [|done]. destruct He as [-> | ->]; auto.
  - exists (Failed ValueError), (with_task st task_msg).
    split_and!; [|done|].
    + intros fallback.
      by apply (selector_run_unknown fallback _ _ _
                  (select_agent select_input)).
    + do 4 right. split_and!; [done| |done|done].
      rewrite <- find_participant_names, Hfind. by intros [? ?].
Qed.
End runs.

Section run_properties.
Context (model_client : string → list message → inference).

(** X7: a run started by [assistant_run] never consults the fallback policy
    and never ends undecided: whatever the policy, it takes one routing
    decision and either terminates after the selected participant, or
    fails on an unknown participant, which happens only once the pipeline
    is done, or fails because a dispatch of the selected participant
    failed or was interrupted, with only the task appended. *)
Theorem run_stream_cli_decided fuel st task select_input :
  pairs_at_rest st →
  ∃ reason st',
    (∀ fallback,
       run_stream model_client fallback (S (S fuel)) final_team st
         (task_message task select_input) = Some (reason, st', 1))
    ∧ (reason = Terminated
       ∨ (reason = Failed ValueError ∧ pipeline_done (thread st))
       ∨ ((reason = Failed RuntimeError ∨ reason = Failed KeyboardInterrupt)
          ∧ st' = with_task st (task_message task select_input))).
Proof.
  intros Hrest.
  destruct (run_stream_cases model_client fuel st task select_input Hrest)
    as (reason & st' & Hrun & _ & Hcases).
  exists reason, st'. split; [done|].
  assert (∀ turns,
            (∀ e, turns = Raise e → e = RuntimeError ∨ e = KeyboardInterrupt) →
            settled (with_task st (task_message task select_input))
              turns reason st' →
            reason = Terminated
            ∨ (reason = Failed ValueError ∧ pipeline_done (thread st))
            ∨ ((reason = Failed RuntimeError
                ∨ reason = Failed KeyboardInterrupt)
               ∧ st' = with_task st (task_message task select_input)))
    as Hsettled.
  { intros [ts|e] He; simpl.
    - intros [-> _]. by left.
    - intros [-> ->]. right; right. split; [|done].
      destruct (He e eq_refl) as [-> | ->]; auto. }
  destruct Hcases as [H|[H|[H|[H|H]]]].
  - destruct H as (_ & H). eapply Hsettled; [|done].
    intros e. apply pair_turns_Raise.
  - destruct H as (_ & _ & H). eapply Hsettled; [|done].
    intros e. apply pair_turns_Raise.
  - destruct H as (_ & _ & _ & H). eapply Hsettled; [|done].
    intros e. apply agent_turns_Raise.
  - destruct H as (_ & _ & [[-> _]|[He ->]]); [by left|].
    right; right. done.
  - destruct H as (Hdone & _ & -> & _). right; left. done.
Qed.

Lemma stage_outcome_settled fallback fuel st task select_input turns reason st' :
  run_stream model_client fallback (S (S fuel)) final_team st
    (task_message task select_input) = Some (reason, st', 1) →
  settled (with_task st (task_message task select_input)) turns reason st' →
  stage_outcome
    (run_stream model_client fallback (S (S fuel)) final_team st
       (task_message task select_input))
    st (task_message task select_input) turns.
Proof.
  intros Hrun. destruct turns as [ts|e]; simpl.
  - intros [-> Hthread]. exists st'. split; [done|].
    by rewrite Hthread, <- app_assoc.
  - by intros [-> ->].
Qed.

(** X8: during the pipeline the answer at the agent prompt is ignored. A
    run on a log without an intake result dispatches the intake pair; with
    an intake result and no planning result, the planning pair; with both
    and no draft, the drafting agent. If the dispatches succeed the run
    terminates after one routing decision with the task and the
    participant's turns appended; if one fails, the run fails with its
    error and only the task appended. *)
Theorem run_stream_pipeline_stages fallback fuel st task select_input :
  pairs_at_rest st →
  let task_msg := task_message task select_input in
  let log := thread st ++ [task_msg] in
  let run := run_stream model_client fallback (S (S fuel)) final_team st
               task_msg in
  (¬ has_spoken "word_insight_json_agent" (thread st) →
   stage_outcome run st task_msg
     (pair_turns model_client word_insight_agent word_insight_json_agent log))
  ∧ (has_spoken "word_insight_json_agent" (thread st) →
     ¬ has_spoken "word_blueprint_json_agent" (thread st) →
     stage_outcome run st task_msg
       (pair_turns model_client word_blueprint_agent
          word_blueprint_json_agent log))
  ∧ (has_spoken "word_insight_json_agent" (thread st) →
     has_spoken "word_blueprint_json_agent" (thread st) →
     ¬ has_spoken "writer_agent" (thread st) →
     stage_outcome run st task_msg
       (agent_turns model_client writer_agent log)).
Proof.
  intros Hrest task_msg log run.
  destruct (run_stream_cases model_client fuel st task select_input Hrest)
    as (reason & st' & Hrun & _ & Hcases).
  specialize (Hrun fallback).
  unfold pipeline_done in Hcases. fold task_msg log in Hcases.
  split_and!; intros;
    destruct Hcases as [H'|[H'|[H'|[H'|H']]]]; try tauto.
  - destruct H' as (_ & Hsettled).
    by eapply stage_outcome_settled.
  - destruct H' as (_ & _ & Hsettled).
    by eapply stage_outcome_settled.
  - destruct H' as (_ & _ & _ & Hsettled).
    by eapply stage_outcome_settled.
Qed.

(** X9: after the pipeline the answer at the agent prompt decides the run:
    if it resolves to a participant of [final_team], the run either
    terminates with that participant's turns appended or fails because a
    dispatch of that participant failed or was interrupted; otherwise the
    run fails with a [ValueError]. A failed run appends only the task
    message. *)
Theorem run_stream_after_pipeline fallback fuel st task select_input :
  pairs_at_rest st →
  pipeline_done (thread st) →
  let task_msg := task_message task select_input in
  let run := run_stream model_client fallback (S (S fuel)) final_team st
               task_msg in
  (select_agent select_input ∈ participant_name <$> sg_participants final_team →
   (∃ st' delta, run = Some (Terminated, st', 1)
      ∧ thread st' = thread st ++ [task_msg] ++ delta ∧ delta ≠ [])
   ∨ (∃ e, (e = RuntimeError ∨ e = KeyboardInterrupt)
        ∧ run = Some (Failed e, with_task st task_msg, 1)))
  ∧ (select_agent select_input ∉ participant_name <$> sg_participants final_team →
     run = Some (Failed ValueError, with_task st task_msg, 1)).
Proof.
  intros Hrest (Hi & Hb & Hw) task_msg run.
  destruct (run_stream_cases model_client fuel st task select_input Hrest)
    as (reason & st' & Hrun & _ & Hcases).
  specialize (Hrun fallback). fold task_msg in Hrun. fold run in Hrun.
  fold task_msg in Hcases.
  destruct Hcases as [H|[H|[H|[H|H]]]]; try tauto.
  - destruct H as (_ & Hin & Hend). split; [|done]. intros _.
    destruct Hend as [[-> (delta & Hthread & Hne)]|[He ->]].
    + left. exists st', delta. by rewrite Hthread, <- app_assoc.
    + right. destruct He as [-> | ->]; eauto.
  - destruct H as (_ & Hnin & -> & ->). split; [done|]. by intros _.
Qed.



Lemma run_stream_stage1 fuel st task select_input turns :
  pairs_at_rest st →
  ¬ has_spoken "word_insight_json_agent" (thread st) →
  let log := thread st ++ [task_message task select_input] in
  pair_turns model_client word_insight_agent word_insight_json_agent log
  = Return turns →
  ∃ st',
    (∀ fallback,
       run_stream model_client fallback (S (S fuel)) final_team st
         (task_message task select_input) = Some (Terminated, st', 1))
    ∧ pairs_at_rest st'
    ∧ thread st' = log ++ turns.
Proof.
  intros Hrest Hi log Hturns.
  destruct (run_stream_cases model_client fuel st task select_input Hrest)
    as (reason & st' & Hrun & Hrest' & Hcases).
  unfold pipeline_done in Hcases. fold log in Hcases.
  exists st'. destruct Hcases as [H|[H|[H|[H|H]]]]; try tauto.
  destruct H as (_ & H). rewrite Hturns in H. by destruct H as [-> ?].
Qed.

Lemma run_stream_stage2 fuel st task select_input turns :
  pairs_at_rest st →
  has_spoken "word_insight_json_agent" (thread st) →
  ¬ has_spoken "word_blueprint_json_agent" (thread st) →
  let log := thread st ++ [task_message task select_input] in
  pair_turns model_client word_blueprint_agent word_blueprint_json_agent log
  = Return turns →
  ∃ st',
    (∀ fallback,
       run_stream model_client fallback (S (S fuel)) final_team st
         (task_message task select_input) = Some (Terminated, st', 1))
    ∧ pairs_at_rest st'
    ∧ thread st' = log ++ turns.
Proof.
  intros Hrest Hi Hb log Hturns.
  destruct (run_stream_cases model_client fuel st task select_input Hrest)
    as (reason & st' & Hrun & Hrest' & Hcases).
  unfold pipeline_done in Hcases. fold log in Hcases.
  exists st'. destruct Hcases as [H|[H|[H|[H|H]]]]; try tauto.
  destruct H as (_ & _ & H). rewrite Hturns in H. by destruct H as [-> ?].
Qed.

Lemma run_stream_stage3 fuel st task select_input turns :
  pairs_at_rest st →
  has_spoken "word_insight_json_agent" (thread st) →
  has_spoken "word_blueprint_json_agent" (thread st) →
  ¬ has_spoken "writer_agent" (thread st) →
  let log := thread st ++ [task_message task select_input] in
  agent_turns model_client writer_agent log = Return turns →
  ∃ st',
    (∀ fallback,
       run_stream model_client fallback (S (S fuel)) final_team st
         (task_message task select_input) = Some (Terminated, st', 1))
    ∧ pairs_at_rest st'
    ∧ thread st' = log ++ turns.
Proof.
  intros Hrest Hi Hb Hw log Hturns.
  destruct (run_stream_cases model_client fuel st task select_input Hrest)
    as (reason & st' & Hrun & Hrest' & Hcases).
  unfold pipeline_done in Hcases. fold log in Hcases.
  exists st'. destruct Hcases as [H|[H|[H|[H|H]]]]; try tauto.
  destruct H as (_ & _ & _ & H). rewrite Hturns in H. by destruct H as [-> ?].
Qed.
End run_properties.

(** ** The console loop *)

Lemma console_input_pairs_ind (P : list console_input → Prop) :
  P [] →
  (∀ stdin, P (CtrlC :: stdin)) →
  (∀ task, P [Line task]) →
  (∀ task stdin, P (Line task :: CtrlC :: stdin)) →
  (∀ task select_input stdin,
     P stdin → P (Line task :: Line select_input :: stdin)) →
  ∀ stdin, P stdin.
Proof.
  intros Hnil Hint Hone Hint2 Hstep stdin.
  cut (P stdin ∧ ∀ x, P (x :: stdin)); [tauto|].
  induction stdin as [|y stdin [IH1 IH2]].
  - split; [done|]. intros [task|]; done.
  - split; [done|]. intros [task|]; [|done].
    destruct y as [select_input|]; [|done]. by apply Hstep.
Qed.

Section console_facts.
Context (model_client : string → list message → inference).
Context (strip lower : string → string).

(** X10: the console loop never consults the fallback policy: whatever is
    typed and whatever the inference service does, its outcome and final
    session are the same under every policy. *)
Theorem assistant_run_no_fallback fallback1 fallback2 fuel stdin st :
  pairs_at_rest st →
  assistant_run model_client fallback1 strip lower (S (S fuel)) stdin st
  = assistant_run model_client fallback2 strip lower (S (S fuel)) stdin st.
Proof.
  revert st. induction stdin as [| | | |task select_input stdin IH]
    using console_input_pairs_ind; intros st Hrest; try done.
  cbn [assistant_run]. case_bool_decide; [done|].
  destruct (run_stream_cases model_client fuel st task (strip select_input)
              Hrest) as (reason & st' & Hrun & Hrest' & _).
  rewrite (Hrun fallback1), (Hrun fallback2).
  destruct reason as [| |[]]; try done; by apply IH.
Qed.


(** X12: from a log on which no pipeline identity has spoken, and as long as
    the dispatches of the three stages succeed, the first three submitted
    tasks run the intake pair, the planning pair and the drafting agent,
    in this order and whatever is answered at the agent prompt; after them
    the pipeline is done. *)
Theorem assistant_run_pipeline fallback fuel st
    task1 answer1 task2 answer2 task3 answer3 stdin turns1 turns2 turns3 :
  pairs_at_rest st →
  ¬ has_spoken "word_insight_json_agent" (thread st) →
  ¬ has_spoken "word_blueprint_json_agent" (thread st) →
  ¬ has_spoken "writer_agent" (thread st) →
  lower task1 ≠ "quit" → lower task2 ≠ "quit" → lower task3 ≠ "quit" →
  let log1 := thread st ++ [task_message task1 (strip answer1)] in
  let log2 := (log1 ++ turns1) ++ [task_message task2 (strip answer2)] in
  let log3 := (log2 ++ turns2) ++ [task_message task3 (strip answer3)] in
  pair_turns model_client word_insight_agent word_insight_json_agent log1
  = Return turns1 →
  pair_turns model_client word_blueprint_agent word_blueprint_json_agent log2
  = Return turns2 →
  agent_turns model_client writer_agent log3 = Return turns3 →
  ∃ st3,
    assistant_run model_client fallback strip lower (S (S fuel))
      (Line task1 :: Line answer1 :: Line task2 :: Line answer2
       :: Line task3 :: Line answer3 :: stdin) st
    = assistant_run model_client fallback strip lower (S (S fuel)) stdin st3
    ∧ thread st3 = log3 ++ turns3
    ∧ pipeline_done (thread st3).
Proof.
  intros Hrest Hi Hb Hw Hq1 Hq2 Hq3 log1 log2 log3 Hturns1 Hturns2 Hturns3.
  destruct (run_stream_stage1 model_client fuel st task1 (strip answer1)
              turns1 Hrest Hi Hturns1) as (st1 & Hrun1 & Hrest1 & Hthread1).
  fold log1 in Hthread1.
  assert (has_spoken "word_insight_json_agent" (thread st1)
          ∧ ¬ has_spoken "word_blueprint_json_agent" (thread st1)
          ∧ ¬ has_spoken "writer_agent" (thread st1)) as (Hi1 & Hb1 & Hw1).
  { rewrite Hthread1. unfold log1.
    rewrite !(has_spoken_app _ (_ ++ [_])),
      !(has_spoken_pair_turns _ _ _ _ _ _ Hturns1), !has_spoken_task_list.
    simpl.
    split_and!; [by eauto| |]; intros [[?|?]|[?|?]]; done. }
  assert (log2 = thread st1 ++ [task_message task2 (strip answer2)])
    as Hlog2 by (unfold log2; by rewrite Hthread1).
  rewrite Hlog2 in Hturns2.
  destruct (run_stream_stage2 model_client fuel st1 task2 (strip answer2)
              turns2 Hrest1 Hi1 Hb1 Hturns2)
    as (st2 & Hrun2 & Hrest2 & Hthread2).
  rewrite <- Hlog2 in Hthread2.
  assert (has_spoken "word_insight_json_agent" (thread st2)
          ∧ has_spoken "word_blueprint_json_agent" (thread st2)
          ∧ ¬ has_spoken "writer_agent" (thread st2)) as (Hi2 & Hb2 & Hw2).
  { rewrite Hthread2, Hlog2.
    rewrite !(has_spoken_app _ (_ ++ [_])),
      !(has_spoken_pair_turns _ _ _ _ _ _ Hturns2), !has_spoken_task_list.
    simpl.
    split_and!; [by eauto|by eauto|]. intros [[?|?]|[?|?]]; done. }
  assert (log3 = thread st2 ++ [task_message task3 (strip answer3)])
    as Hlog3 by (unfold log3; by rewrite Hthread2).
  rewrite Hlog3 in Hturns3.
  destruct (run_stream_stage3 model_client fuel st2 task3 (strip answer3)
              turns3 Hrest2 Hi2 Hb2 Hw2 Hturns3)
    as (st3 & Hrun3 & Hrest3 & Hthread3).
  rewrite <- Hlog3 in Hthread3.
  exists st3. split_and!; [|done|].
  - cbn [assistant_run].
    rewrite (bool_decide_eq_false_2 _ Hq1), (Hrun1 fallback).
    rewrite (bool_decide_eq_false_2 _ Hq2), (Hrun2 fallback).
    by rewrite (bool_decide_eq_false_2 _ Hq3), (Hrun3 fallback).
  - rewrite Hthread3, Hlog3.
    unfold pipeline_done.
    rewrite !(has_spoken_app _ (_ ++ [_])),
      !(has_spoken_agent_turns _ _ _ _ _ Hturns3), !has_spoken_task_list.
    simpl.
    split_and!; [by left; left|by left; left|by right].
Qed.
End console_facts.

(** ** The pipeline on concrete sessions *)



(** C6, the claim refuted: a sub-run of the intake pair in which the repair
    answer is not a value of the schema fails and yields no turn, so it is
    not true that every sub-run appends the content agent's turn and then
    the repair agent's turn. *)
Lemma validating_pair_sub_run_fails :
  round_robin_run echo_client 2 team_insight 0
    [TextMessage "write a report" "user" ∅] []
  = Some (Raise RuntimeError)
  ∧ ¬ (∀ model_client fuel context,
         ∃ first second,
           round_robin_run model_client (S (S fuel)) team_insight 0 context []
           = Some (Return (0, [first; second]))).
Proof.
  split; [reflexivity|].
  intros Halways.
  destruct (Halways echo_client 0 [TextMessage "write a report" "user" ∅])
    as (first & second & Hrun).
  discriminate Hrun.
Qed.

Lemma validating_pairs_protocol_witness :
  pair_protocol stub_client team_blueprint
    word_blueprint_agent word_blueprint_json_agent.
Proof. apply (validating_pairs_protocol stub_client). Defined.

Example sub_run_team_insight :
  round_robin_run stub_client 2 team_insight 0 [] []
  = Some (Return
      (0, [{| source := "word_insight_agent";
              content := Text "word_insight_agent"; metadata := ∅ |};
           {| source := "word_insight_json_agent";
              content := Insight default_insight; metadata := ∅ |}])).
Proof. reflexivity. Qed.

Example pipeline_sources :
  source <$> thread session_drafted
  = ["user"; "word_insight_agent"; "word_insight_json_agent";
     "user"; "word_blueprint_agent"; "word_blueprint_json_agent";
     "user"; "writer_agent"].
Proof. reflexivity. Qed.

Example run_polish :
  ∃ st', run_stream stub_client no_fallback 2 final_team session_drafted
           (task_message "polish" "1") = Some (Terminated, st', 1)
         ∧ source <$> thread st'
           = (source <$> thread session_drafted) ++ ["user"; "refiner_agent"].
Proof. eexists. split; reflexivity. Qed.

(** Pressing Enter at the prompt stores the empty string under
    ["select_agent"]: the Router returns it and it names no participant. *)
Example run_skip :
  run_stream stub_client no_fallback 2 final_team session_drafted
    (task_message "polish" "")
  = Some (Failed ValueError,
          with_task session_drafted (task_message "polish" ""), 1).
Proof. reflexivity. Qed.

(** With a service that answers the repair agent in free text, the first
    run fails and only the task is appended. *)
Example run_first_fails :
  run_stream echo_client no_fallback 2 final_team new_session
    (task_message "report" "")
  = Some (Failed RuntimeError,
          with_task new_session (task_message "report" ""), 1).
Proof. reflexivity. Qed.

Lemma final_team_one_decision_witness :
  ∃ reason st',
    run_stream stub_client no_fallback 2 final_team session_drafted
      (task_message "explain" "2") = Some (reason, st', 1)
    ∧ pairs_at_rest st'.
Proof.
  destruct (final_team_one_decision stub_client no_fallback)
    as (_ & _ & Hrun).
  destruct (Hrun 0 session_drafted "explain" "2")
    as (reason & st' & Heq & Hrest & _).
  - split; reflexivity.
  - exists reason, st'. split; assumption.
Defined.

Lemma selector_func_total_witness :
  ∃ decision, selector_func log_out_of_order = Return decision.
Proof.
  destruct selector_func_total as (Htotal & _). apply Htotal.
Defined.

Lemma run_stream_cli_decided_witness :
  ∃ reason st',
    (∀ fallback,
       run_stream echo_client fallback 2 final_team new_session
         (task_message "report" "2") = Some (reason, st', 1))
    ∧ (reason = Terminated
       ∨ (reason = Failed ValueError ∧ pipeline_done (thread new_session))
       ∨ ((reason = Failed RuntimeError ∨ reason = Failed KeyboardInterrupt)
          ∧ st' = with_task new_session (task_message "report" "2"))).
Proof.
  apply (run_stream_cli_decided echo_client 0 new_session "report" "2").
  split; reflexivity.
Defined.

Lemma run_stream_pipeline_stages_witness :
  stage_outcome
    (run_stream stub_client no_fallback 2 final_team new_session
       (task_message "report" "2"))
    new_session (task_message "report" "2")
    (pair_turns stub_client word_insight_agent word_insight_json_agent
       (thread new_session ++ [task_message "report" "2"])).
Proof.
  pose proof (run_stream_pipeline_stages stub_client no_fallback 0
                new_session "report" "2") as Hstages.
  cbv zeta in Hstages. destruct Hstages as (Hfirst & _).
  - split; reflexivity.
  - apply Hfirst. decide_spoken.
Defined.

Lemma run_stream_after_pipeline_witness :
  (∃ st' delta,
     run_stream stub_client no_fallback 2 final_team session_drafted
       (task_message "polish" "1") = Some (Terminated, st', 1)
     ∧ thread st'
       = thread session_drafted ++ [task_message "polish" "1"] ++ delta
     ∧ delta ≠ [])
  ∨ (∃ e, (e = RuntimeError ∨ e = KeyboardInterrupt)
       ∧ run_stream stub_client no_fallback 2 final_team session_drafted
           (task_message "polish" "1")
         = Some (Failed e,
                 with_task session_drafted (task_message "polish" "1"), 1)).
Proof.
  pose proof (run_stream_after_pipeline stub_client no_fallback 0
                session_drafted "polish" "1") as Hafter.
  cbv zeta in Hafter. destruct Hafter as (Hknown & _).
  - split; reflexivity.
  - repeat split; decide_spoken.
  - apply Hknown. apply (bool_decide_unpack _). vm_compute. exact I.
Defined.

Lemma assistant_run_no_fallback_witness :
  assistant_run stub_client no_fallback no_strip no_lower 2
    [Line "report"; Line ""; Line "go"; Line "1"; Line "quit"; Line ""]
    new_session
  = assistant_run stub_client (λ _, Some "refiner_agent") no_strip no_lower 2
      [Line "report"; Line ""; Line "go"; Line "1"; Line "quit"; Line ""]
      new_session.
Proof.
  apply (assistant_run_no_fallback stub_client no_strip no_lower).
  split; reflexivity.
Defined.


(** Pressing Enter at the agent prompt is harmless during the pipeline and
    ends the loop with a [ValueError] right after it. *)
Example assistant_run_skip :
  fst (assistant_run stub_client no_fallback no_strip no_lower 2
         [Line "report"; Line ""; Line "go"; Line ""; Line "go"; Line "";
          Line "polish"; Line ""; Line "quit"; Line ""] new_session)
  = RunError ValueError.
Proof. reflexivity. Qed.

(** A Ctrl-C that arrives while a run is awaited ends the loop through the
    handler, with only the task appended. *)
Example assistant_run_interrupted :
  assistant_run (λ _ _, Cancelled) no_fallback no_strip no_lower 2
    [Line "report"; Line ""; Line "quit"; Line ""] new_session
  = (Interrupted, with_task new_session (task_message "report" "")).
Proof. reflexivity. Qed.

Lemma assistant_run_pipeline_witness :
  ∃ st3,
    assistant_run stub_client no_fallback no_strip no_lower 2
      [Line "report"; Line "1"; Line "go"; Line "x"; Line "go"; Line "";
       Line "quit"; Line ""] new_session
    = assistant_run stub_client no_fallback no_strip no_lower 2
        [Line "quit"; Line ""] st3
    ∧ pipeline_done (thread st3).
Proof.
  pose proof (assistant_run_pipeline stub_client no_strip no_lower no_fallback
                0 new_session "report" "1" "go" "x" "go" ""
                [Line "quit"; Line ""]) as Hpipeline.
  cbv zeta in Hpipeline.
  edestruct Hpipeline as (st3 & Hrun & _ & Hdone);
    [split; reflexivity|decide_spoken..|reflexivity|reflexivity|reflexivity|].
  by exists st3.
Defined.
